(** * Issue-template validation patterns: the pattern-test runner

    A shallow embedding of [scripts/test-template-validation.py]: the
    evaluator [test_pattern], the driver [main] with its four literal
    pattern cases, and the fragment of Python's [re] module the script
    relies on ([re.compile] and [Pattern.match]).  What [re] does beyond
    that fragment, and the part of Unicode's digit table above ASCII, are
    parameters of the development. *)

From Stdlib Require Import List NArith Arith Bool Lia String Ascii.
Import ListNotations.

Set Implicit Arguments.

(** ** Python strings

    A Python [str] is a sequence of Unicode code points.  Literals of the
    script that are plain ASCII are written with [py]. *)

Definition codepoint := N.
Definition str := list codepoint.

Definition py (s : string) : str := map N_of_ascii (list_ascii_of_string s).

Definition ch (a : ascii) : codepoint := N_of_ascii a.

(** [s * n] on strings. *)
Fixpoint str_mul (s : str) (n : nat) : str :=
  match n with
  | O => []
  | S k => s ++ str_mul s k
  end.

Definition newline : codepoint := 10%N.

(** The two non-ASCII characters of the report: U+2713 and U+2717. *)
Definition check_mark : str := [10003%N].
Definition ballot_x : str := [10007%N].

(** ** Compiled patterns

    The constructors follow the opcodes of [sre_parse]: [LITERAL], [RANGE]
    and [CATEGORY_DIGIT] inside [IN]; [ANY]; [AT_BEGINNING] and [AT_END];
    [BRANCH]; [MAX_REPEAT]; [SUBPATTERN]. *)

Inductive set_item : Type :=
| Literal (c : codepoint)
| Range (lo hi : codepoint)
| Category_digit.

Arguments Literal c%_N.
Arguments Range (lo hi)%_N.

Inductive regex : Type :=
| Empty
| In (negate : bool) (items : list set_item)
| Any
| At_beginning
| At_end
| Seq (r1 r2 : regex)
| Branch (r1 r2 : regex)
| Max_repeat (lo : nat) (hi : option nat) (r : regex)
| Subpattern (capturing : bool) (r : regex).

(** A match object: only its span is kept. *)
Record Match : Type := { m_start : nat; m_end : nat }.

Section Engine.

(** The members of Unicode category Nd above U+007F.  The table belongs to
    the interpreter's Unicode database; the ASCII part of the category is
    fixed to the ten digits. *)
Variable nd_non_ascii : codepoint -> bool.

Definition is_decimal (c : codepoint) : bool :=
  if (c <? 128)%N then (48 <=? c)%N && (c <=? 57)%N else nd_non_ascii c.

Definition item_mem (c : codepoint) (it : set_item) : bool :=
  match it with
  | Literal d => (c =? d)%N
  | Range lo hi => (lo <=? c)%N && (c <=? hi)%N
  | Category_digit => is_decimal c
  end.

Definition set_mem (negate : bool) (items : list set_item) (c : codepoint) : bool :=
  xorb negate (existsb (item_mem c) items).

(** [$] without MULTILINE: at the end of the string, or just before a
    newline that is the last character. *)
Definition at_end (s : str) (i : nat) : bool :=
  (i =? List.length s) || ((S i =? List.length s) && match nth_error s i with
                                           | Some c => (c =? newline)%N
                                           | None => false
                                           end).

(** *** The backtracking matcher

    [run r s i] lists the end positions of the matches of [r] that start
    at position [i] of [s], in the order the backtracking engine tries
    them; the head is the match the engine reports. *)

(** Optional iterations of a greedy repeat, at most [count] of them: one
    more iteration is tried first, and stopping here last.  After an
    iteration that consumed nothing the engine does not iterate again but
    goes on with what follows the repeat. *)
Fixpoint rep_opt (step : nat -> list nat) (count : nat) (i : nat) : list nat :=
  match count with
  | O => [i]
  | S c => flat_map (fun k => if i <? k then rep_opt step c k else [k]) (step i) ++ [i]
  end.

(** Mandatory iterations of a repeat, then the continuation [rest]. *)
Fixpoint rep_min (step : nat -> list nat) (lo : nat) (rest : nat -> list nat)
         (i : nat) : list nat :=
  match lo with
  | O => rest i
  | S l => flat_map (rep_min step l rest) (step i)
  end.

Fixpoint run (r : regex) (s : str) (i : nat) : list nat :=
  match r with
  | Empty => [i]
  | In negate items =>
      match nth_error s i with
      | Some c => if set_mem negate items c then [S i] else []
      | None => []
      end
  | Any =>
      match nth_error s i with
      | Some c => if (c =? newline)%N then [] else [S i]
      | None => []
      end
  | At_beginning => if i =? 0 then [i] else []
  | At_end => if at_end s i then [i] else []
  | Seq r1 r2 => flat_map (run r2 s) (run r1 s i)
  | Branch r1 r2 => run r1 s i ++ run r2 s i
  | Max_repeat lo hi r1 =>
      match hi with
      | Some h =>
          if h <? lo then []
          else rep_min (run r1 s) lo (rep_opt (run r1 s) (h - lo)) i
      | None => rep_min (run r1 s) lo (rep_opt (run r1 s) (List.length s)) i
      end
  | Subpattern _ r1 => run r1 s i
  end.

(** [Pattern.match(string)]: a match that starts at position 0, or [None]. *)
Definition regex_match (r : regex) (s : str) : option Match :=
  match run r s 0 with
  | [] => None
  | e :: _ => Some {| m_start := 0; m_end := e |}
  end.

End Engine.

(** A Unicode table in which the ASCII digits are the only decimal digits. *)
Definition ascii_digits_only : codepoint -> bool := fun _ => false.

(** ** [re.compile]: the pattern parser

    The parser follows [sre_parse] on the syntax it covers: literals,
    [.], [^], [$], character sets with ranges, negation and [\d], escaped
    punctuation, groups [( )] and [(?: )], alternation, and the greedy
    quantifiers.  Its answer is the parsed pattern, [Rejected] where
    [sre_parse] raises [re.error] (an unterminated set or group, a stray
    closing parenthesis, a reversed range or bound, a repeat with nothing
    to repeat or of a repeat, a backslash at the end), or [Beyond] as soon
    as the pattern leaves this fragment: what Python does then is not the
    parser's to say. *)

Module Parser.

Inductive result (A : Type) : Type :=
| Ok (a : A)
| Rejected
| Beyond.

Arguments Rejected {A}.
Arguments Beyond {A}.

Definition is_ascii_digit (c : codepoint) : bool := (48 <=? c)%N && (c <=? 57)%N.

Definition is_ascii_letter (c : codepoint) : bool :=
  ((65 <=? c)%N && (c <=? 90)%N) || ((97 <=? c)%N && (c <=? 122)%N).

Fixpoint take_digits (src : str) : str * str :=
  match src with
  | c :: rest =>
      if is_ascii_digit c
      then let (ds, rest') := take_digits rest in (c :: ds, rest')
      else ([], src)
  | [] => ([], [])
  end.

Definition int_of_digits (ds : str) : nat :=
  fold_left (fun acc d => 10 * acc + N.to_nat (d - 48)) ds 0.

(** A code inside a character set: a character, [\d], or an escaped
    character that is neither an ASCII letter nor a digit.  The other
    escapes of letters and digits are beyond the fragment. *)
Definition class_code (src : str) : result (set_item * str) :=
  match src with
  | [] => Rejected
  | c :: rest =>
      if (c =? ch "\")%N then
        match rest with
        | [] => Rejected
        | e :: rest' =>
            if (e =? ch "d")%N then Ok (Category_digit, rest')
            else if is_ascii_letter e || is_ascii_digit e then Beyond
            else Ok (Literal e, rest')
        end
      else Ok (Literal c, rest)
  end.

(** The body of a character set, after [[] and an optional [^]. *)
Fixpoint parse_set (fuel : nat) (acc : list set_item) (src : str)
  : result (list set_item * str) :=
  match fuel with
  | O => Beyond
  | S f =>
      match src with
      | [] => Rejected
      | c :: rest =>
          if (c =? ch "]")%N && negb (Nat.eqb (List.length acc) 0)
          then Ok (rev acc, rest)
          else
            match class_code src with
            | Rejected => Rejected
            | Beyond => Beyond
            | Ok (code1, src1) =>
                match src1 with
                | d :: e :: src3 =>
                    if (d =? ch "-")%N then
                      if (e =? ch "]")%N
                      then Ok (rev (Literal (ch "-") :: code1 :: acc), src3)
                      else
                        match class_code (e :: src3) with
                        | Rejected => Rejected
                        | Beyond => Beyond
                        | Ok (Literal hi, src4) =>
                            match code1 with
                            | Literal lo =>
                                if (hi <? lo)%N then Rejected
                                else parse_set f (Range lo hi :: acc) src4
                            | _ => Rejected
                            end
                        | Ok _ => Rejected
                        end
                    else parse_set f (code1 :: acc) src1
                | _ => parse_set f (code1 :: acc) src1
                end
            end
      end
  end.

(** The bounds of [{m,n}], after the brace.  A brace that opens no
    repeat is a literal for Python, and beyond the fragment; so is a bound
    of ten digits or more, which may overflow. *)
Definition parse_braces (src : str) : result (nat * option nat * str) :=
  let (lo, src1) := take_digits src in
  if 9 <? List.length lo then Beyond else
  match src1 with
  | c :: src2 =>
      if (c =? ch ",")%N then
        let (hi, src3) := take_digits src2 in
        if 9 <? List.length hi then Beyond else
        match src3 with
        | c' :: src4 =>
            if (c' =? ch "}")%N then
              match hi with
              | [] => Ok (int_of_digits lo, None, src4)
              | _ =>
                  if int_of_digits hi <? int_of_digits lo then Rejected
                  else Ok (int_of_digits lo, Some (int_of_digits hi), src4)
              end
            else Beyond
        | [] => Beyond
        end
      else if (c =? ch "}")%N then
        match lo with
        | [] => Beyond
        | _ => Ok (int_of_digits lo, Some (int_of_digits lo), src2)
        end
      else Beyond
  | [] => Beyond
  end.

(** A quantifier at the head of [src]. *)
Definition quantifier (src : str) : option (result (nat * option nat * str)) :=
  match src with
  | c :: rest =>
      if (c =? ch "*")%N then Some (Ok (0, None, rest))
      else if (c =? ch "+")%N then Some (Ok (1, None, rest))
      else if (c =? ch "?")%N then Some (Ok (0, Some 1, rest))
      else if (c =? ch "{")%N then Some (parse_braces rest)
      else None
  | [] => None
  end.

(** The repeated item is the last one parsed; anchors and repeats cannot be
    repeated; a lazy or possessive suffix is beyond the fragment. *)
Definition apply_repeat (acc : list regex) (lo : nat) (hi : option nat) (rest : str)
  : result (list regex) :=
  match acc with
  | [] | At_beginning :: _ | At_end :: _ | Max_repeat _ _ _ :: _ => Rejected
  | item :: acc' =>
      match rest with
      | c :: _ => if (c =? ch "?")%N || (c =? ch "+")%N then Beyond
                  else Ok (Max_repeat lo hi item :: acc')
      | [] => Ok (Max_repeat lo hi item :: acc')
      end
  end.

Fixpoint seq_of (items : list regex) : regex :=
  match items with
  | [] => Empty
  | [r] => r
  | r :: rs => Seq r (seq_of rs)
  end.

Definition literal (c : codepoint) : regex := In false [Literal c].

Fixpoint parse_sub (fuel : nat) (src : str) : result (regex * str) :=
  match fuel with
  | O => Beyond
  | S f =>
      match parse_items f [] src with
      | Rejected => Rejected
      | Beyond => Beyond
      | Ok (items, rest) =>
          match rest with
          | c :: rest' =>
              if (c =? ch "|")%N then
                match parse_sub f rest' with
                | Ok (alt, rest'') => Ok (Branch (seq_of items) alt, rest'')
                | Rejected => Rejected
                | Beyond => Beyond
                end
              else Ok (seq_of items, rest)
          | [] => Ok (seq_of items, [])
          end
      end
  end
with parse_items (fuel : nat) (acc : list regex) (src : str)
  : result (list regex * str) :=
  match fuel with
  | O => Beyond
  | S f =>
      match src with
      | [] => Ok (rev acc, [])
      | c :: rest =>
          if (c =? ch "|")%N || (c =? ch ")")%N then Ok (rev acc, src)
          else
            match quantifier src with
            | Some Rejected => Rejected
            | Some Beyond => Beyond
            | Some (Ok (lo, hi, rest')) =>
                match apply_repeat acc lo hi rest' with
                | Ok acc' => parse_items f acc' rest'
                | Rejected => Rejected
                | Beyond => Beyond
                end
            | None =>
                if (c =? ch "\")%N then
                  match rest with
                  | [] => Rejected
                  | e :: rest' =>
                      if (e =? ch "d")%N
                      then parse_items f (In false [Category_digit] :: acc) rest'
                      else if is_ascii_letter e || is_ascii_digit e then Beyond
                      else parse_items f (literal e :: acc) rest'
                  end
                else if (c =? ch ".")%N then parse_items f (Any :: acc) rest
                else if (c =? ch "^")%N then parse_items f (At_beginning :: acc) rest
                else if (c =? ch "$")%N then parse_items f (At_end :: acc) rest
                else if (c =? ch "[")%N then
                  let (negate, body) :=
                    match rest with
                    | n :: body' => if (n =? ch "^")%N then (true, body') else (false, rest)
                    | [] => (false, rest)
                    end in
                  match parse_set (S (List.length body)) [] body with
                  | Ok (items, rest') => parse_items f (In negate items :: acc) rest'
                  | Rejected => Rejected
                  | Beyond => Beyond
                  end
                else if (c =? ch "(")%N then
                  let (capturing, body) :=
                    match rest with
                    | q :: k :: body' =>
                        if (q =? ch "?")%N && (k =? ch ":")%N then (false, body')
                        else (true, rest)
                    | _ => (true, rest)
                    end in
                  match body with
                  | q :: _ =>
                      if (q =? ch "?")%N then Beyond else
                      match parse_sub f body with
                      | Ok (r, close :: rest') =>
                          if (close =? ch ")")%N
                          then parse_items f (Subpattern capturing r :: acc) rest'
                          else Beyond
                      | Ok (r, []) => Rejected
                      | Rejected => Rejected
                      | Beyond => Beyond
                      end
                  | [] => Rejected
                  end
                else parse_items f (literal c :: acc) rest
            end
      end
  end.

End Parser.

(** [sre_parse.parse].  Every call of the parser's two loops consumes a
    character or closes an alternative, so twice the length of the pattern,
    plus two, bounds their depth.  What is left over after the last
    alternative is a closing parenthesis that closes nothing. *)
Definition re_parse (pattern : str) : Parser.result regex :=
  match Parser.parse_sub (2 * List.length pattern + 2) pattern with
  | Parser.Ok (r, []) => Parser.Ok r
  | Parser.Ok (r, _ :: _) => Parser.Rejected
  | Parser.Rejected => Parser.Rejected
  | Parser.Beyond => Parser.Beyond
  end.

(** The compiled pattern, for a pattern of the fragment. *)
Definition re_compile (pattern : str) : option regex :=
  match re_parse pattern with
  | Parser.Ok r => Some r
  | _ => None
  end.

(** ** Standard output, exceptions and the process

    Standard output is the text stream of the default run: UTF-8, strict.
    [print] encodes its argument and appends it and a newline; a string
    with a surrogate code point cannot be encoded, and [print] then raises
    [UnicodeEncodeError], whose [object] is that string, having written
    nothing of it.  The other exceptions the script can meet are those of
    [re.compile]. *)

Inductive exn : Type :=
| Re_error
| Overflow_error
| Recursion_error
| Unicode_encode_error (object : str).

Inductive outcome (A : Type) : Type :=
| Returns (a : A) (out : str)
| Raises (e : exn) (out : str).

Arguments Raises {A} e out.

Definition io (A : Type) : Type := str -> outcome A.

Definition ret {A} (a : A) : io A := fun out => Returns a out.

Definition bind {A B} (c : io A) (k : A -> io B) : io B :=
  fun out =>
    match c out with
    | Returns a out' => k a out'
    | Raises e out' => Raises e out'
    end.

Definition raise {A} (e : exn) : io A := fun out => Raises e out.

Definition is_surrogate (c : codepoint) : bool :=
  (55296 <=? c)%N && (c <=? 57343)%N.

(** [s.encode('utf-8')] succeeds. *)
Definition encodable (s : str) : bool :=
  forallb (fun c => negb (is_surrogate c)) s.

Definition print (line : str) : io unit :=
  fun out =>
    if encodable line then Returns tt (out ++ line ++ [newline])
    else Raises (Unicode_encode_error line) out.

Declare Scope io_scope.
Delimit Scope io_scope with io.
Notation "x <- c ;; k" := (bind c (fun x => k))
  (at level 61, c at next level, right associativity) : io_scope.
Notation "c ;; k" := (bind c (fun _ => k))
  (at level 61, right associativity) : io_scope.
Local Open Scope io_scope.

(** [for x in xs: body], with the loop's local variables threaded as [st]. *)
Fixpoint for_in {A St} (xs : list A) (body : A -> St -> io St) (st : St) : io St :=
  match xs with
  | [] => ret st
  | x :: xs' => st' <- body x st ;; for_in xs' body st'
  end.

(** A compiled pattern object: a pattern of the parsed fragment, or one
    beyond it, known by what its [match] method returns. *)
Inductive pattern_object : Type :=
| Compiled (r : regex)
| Foreign (m : str -> option Match).

(** Truth value of [Pattern.match]'s result: a match object is true. *)
Definition truthy (m : option Match) : bool :=
  match m with
  | Some _ => true
  | None => false
  end.

(** The keyword arguments of one call of [test_pattern] in [main]. *)
Record PatternCase : Type := {
  name : str;
  pattern : str;
  valid_inputs : list str;
  invalid_inputs : list str
}.

Definition value_of {A} (o : outcome A) : option A :=
  match o with
  | Returns a _ => Some a
  | Raises _ _ => None
  end.

Definition output_of {A} (o : outcome A) : str :=
  match o with
  | Returns _ out => out
  | Raises _ out => out
  end.

(** The outcome [o] of a computation started on empty output, as it is
    when started after [out]. *)
Definition after {A} (out : str) (o : outcome A) : outcome A :=
  match o with
  | Returns a printed => Returns a (out ++ printed)
  | Raises e printed => Raises e (out ++ printed)
  end.

(** A computation that only appends to standard output. *)
Definition appends {A} (c : io A) : Prop :=
  forall out, c out = after out (c []).

(** What the operating system sees of one run. *)
Record process : Type := { stdout : str; exit_code : nat }.

Section Script.

Variable nd_non_ascii : codepoint -> bool.

(** What [re.compile] does with a pattern beyond the parsed fragment: the
    exception it raises, or the [match] method of the pattern object it
    returns.  It belongs to the interpreter's [re] module. *)
Variable re_beyond : str -> exn + (str -> option Match).

(** ** Match-from-start, declaratively

    [Matches s r i j]: the pattern [r] matches the characters of [s] from
    position [i] up to position [j], with [s] as the context of its
    anchors. *)
Inductive Matches (s : str) : regex -> nat -> nat -> Prop :=
| M_empty i : Matches s Empty i i
| M_in negate items i c :
    nth_error s i = Some c -> set_mem nd_non_ascii negate items c = true ->
    Matches s (In negate items) i (S i)
| M_any i c :
    nth_error s i = Some c -> c <> newline -> Matches s Any i (S i)
| M_beginning : Matches s At_beginning 0 0
| M_end i :
    i = List.length s \/ (S i = List.length s /\ nth_error s i = Some newline) ->
    Matches s At_end i i
| M_seq r1 r2 i k j :
    Matches s r1 i k -> Matches s r2 k j -> Matches s (Seq r1 r2) i j
| M_branch_l r1 r2 i j : Matches s r1 i j -> Matches s (Branch r1 r2) i j
| M_branch_r r1 r2 i j : Matches s r2 i j -> Matches s (Branch r1 r2) i j
| M_repeat_stop hi r i : Matches s (Max_repeat 0 hi r) i i
| M_repeat_more lo hi r i k j :
    hi <> Some 0 ->
    Matches s r i k ->
    Matches s (Max_repeat (pred lo) (option_map pred hi) r) k j ->
    Matches s (Max_repeat lo hi r) i j
| M_subpattern capturing r i j :
    Matches s r i j -> Matches s (Subpattern capturing r) i j.

(** Some prefix [s[0:j]] of [s] matches [r]. *)
Definition matches_from_start (r : regex) (s : str) : Prop :=
  exists j, j <= List.length s /\ Matches s r 0 j.

(** ** The evaluator *)

Definition rule : str := str_mul (py "=") 60.

(** [re.compile(pattern)]: the pattern object, or the exception. *)
Definition re_compile_object (pattern : str) : exn + pattern_object :=
  match re_parse pattern with
  | Parser.Ok r => inr (Compiled r)
  | Parser.Rejected => inl Re_error
  | Parser.Beyond =>
      match re_beyond pattern with
      | inl e => inl e
      | inr m => inr (Foreign m)
      end
  end.

Definition compile (pattern : str) : io pattern_object :=
  match re_compile_object pattern with
  | inr p => ret p
  | inl e => raise e
  end.

(** [regex.match(string)] on a pattern object. *)
Definition pattern_match (p : pattern_object) (s : str) : option Match :=
  match p with
  | Compiled r => regex_match nd_non_ascii r s
  | Foreign m => m s
  end.

Definition test_pattern (name pattern : str) (valid_inputs invalid_inputs : list str)
  : io bool :=
  print ([newline] ++ rule) ;;
  print (py "Testing: " ++ name) ;;
  print (py "Pattern: " ++ pattern) ;;
  print rule ;;
  regex <- compile pattern ;;
  let all_passed := true in
  print ([newline] ++ check_mark ++ py " Valid inputs (should match):") ;;
  all_passed <- for_in valid_inputs (fun test_input all_passed =>
    let m := pattern_match regex test_input in
    if truthy m then
      print (py "  " ++ check_mark ++ py " '" ++ test_input ++ py "' - PASS") ;;
      ret all_passed
    else
      print (py "  " ++ ballot_x ++ py " '" ++ test_input ++ py "' - FAIL (should match)") ;;
      ret false) all_passed ;;
  print ([newline] ++ ballot_x ++ py " Invalid inputs (should NOT match):") ;;
  all_passed <- for_in invalid_inputs (fun test_input all_passed =>
    let m := pattern_match regex test_input in
    if negb (truthy m) then
      print (py "  " ++ check_mark ++ py " '" ++ test_input
               ++ py "' - PASS (correctly rejected)") ;;
      ret all_passed
    else
      print (py "  " ++ ballot_x ++ py " '" ++ test_input
               ++ py "' - FAIL (should not match)") ;;
      ret false) all_passed ;;
  ret all_passed.

Definition run_case (c : PatternCase) : io bool :=
  test_pattern (name c) (pattern c) (valid_inputs c) (invalid_inputs c).

(** ** The driver *)

Definition issue_number : PatternCase := {|
  name := py "Issue Number Pattern";
  pattern := py "^#?\d+$";
  valid_inputs := [py "1"; py "123"; py "#1"; py "#123"; py "9999"];
  invalid_inputs :=
    [py ""; py "#"; py "abc"; py "#abc"; py "12a"; py "12 34"; py "12.34"; py "-12"]
|}.

Definition github_username : PatternCase := {|
  name := py "GitHub Username Pattern";
  pattern := py "^[a-zA-Z0-9]([a-zA-Z0-9-]{0,37}[a-zA-Z0-9])?$";
  valid_inputs :=
    [py "copilot"; py "user123"; py "my-bot-name"; py "ABC"; py "a";
     py "user-name-with-hyphens";
     py "a" ++ str_mul (py "1") 37 ++ py "b"];
  invalid_inputs :=
    [py ""; py "-invalid"; py "invalid-"; py "user name"; py "user@name";
     py "user.name"; py "user_name"; py "--invalid";
     py "a" ++ str_mul (py "1") 38 ++ py "b"]
|}.

Definition bot_username : PatternCase := {|
  name := py "Bot Username Pattern";
  pattern := py "^[a-zA-Z0-9]([a-zA-Z0-9-]{0,37}[a-zA-Z0-9])?\[bot\]$";
  valid_inputs :=
    [py "copilot[bot]"; py "my-app[bot]"; py "github-actions[bot]"; py "a[bot]"];
  invalid_inputs :=
    [py ""; py "copilot"; py "[bot]"; py "copilot[bot"; py "copilot bot]";
     py "copilot-[bot]"; py "-copilot[bot]"; py "copilot[bot]-"; py "copilot[BOT]"]
|}.

Definition app_id : PatternCase := {|
  name := py "GitHub App ID Pattern";
  pattern := py "^\d+$";
  valid_inputs := [py "1"; py "12345"; py "999999"; py "0"];
  invalid_inputs :=
    [py ""; py "abc"; py "123abc"; py "abc123"; py "12.34"; py "-123"; py "12 34";
     py "#123"]
|}.

(** The body of [main], with the four literal argument groups abstracted. *)
Definition main_on (c1 c2 c3 c4 : PatternCase) : io nat :=
  print (py "Issue Template Validation Pattern Tests") ;;
  print rule ;;
  let all_tests_passed := true in
  r1 <- run_case c1 ;;
  let all_tests_passed := all_tests_passed && r1 in
  r2 <- run_case c2 ;;
  let all_tests_passed := all_tests_passed && r2 in
  r3 <- run_case c3 ;;
  let all_tests_passed := all_tests_passed && r3 in
  r4 <- run_case c4 ;;
  let all_tests_passed := all_tests_passed && r4 in
  print ([newline] ++ rule) ;;
  if all_tests_passed then
    print (check_mark ++ py " ALL TESTS PASSED") ;;
    print rule ;;
    ret 0
  else
    print (ballot_x ++ py " SOME TESTS FAILED") ;;
    print rule ;;
    ret 1.

Definition main : io nat :=
  main_on issue_number github_username bot_username app_id.

(** [sys.exit(status)]: the status and what was printed are all that
    leaves the process; an uncaught exception ends it with status 1. *)
Definition sys_exit (o : outcome nat) : process :=
  match o with
  | Returns status out => {| stdout := out; exit_code := status |}
  | Raises _ out => {| stdout := out; exit_code := 1 |}
  end.

(** [sys.exit(main())] under [if __name__ == '__main__'], in the default
    run: the script reads neither [sys.argv] nor [os.environ], and standard
    output is the UTF-8 stream of [print]. *)
Definition script (argv : list str) (environ : list (str * str)) : process :=
  sys_exit (main []).

(** ** The report in closed form *)

Definition matched (r : regex) (s : str) : bool :=
  truthy (regex_match nd_non_ascii r s).

Definition header (name pattern : str) : str :=
  ([newline] ++ rule) ++ [newline]
  ++ (py "Testing: " ++ name) ++ [newline]
  ++ (py "Pattern: " ++ pattern) ++ [newline]
  ++ rule ++ [newline].

Definition valid_heading : str :=
  ([newline] ++ check_mark ++ py " Valid inputs (should match):") ++ [newline].

Definition invalid_heading : str :=
  ([newline] ++ ballot_x ++ py " Invalid inputs (should NOT match):") ++ [newline].





(** The same for any pattern object. *)
Definition hit (p : pattern_object) (s : str) : bool :=
  truthy (pattern_match p s).

Definition valid_line_of (p : pattern_object) (s : str) : str :=
  (if hit p s
   then py "  " ++ check_mark ++ py " '" ++ s ++ py "' - PASS"
   else py "  " ++ ballot_x ++ py " '" ++ s ++ py "' - FAIL (should match)")
  ++ [newline].

Definition invalid_line_of (p : pattern_object) (s : str) : str :=
  (if negb (hit p s)
   then py "  " ++ check_mark ++ py " '" ++ s ++ py "' - PASS (correctly rejected)"
   else py "  " ++ ballot_x ++ py " '" ++ s ++ py "' - FAIL (should not match)")
  ++ [newline].

Definition report_of (name pattern : str) (p : pattern_object)
           (valid invalid : list str) : str :=
  header name pattern
  ++ valid_heading ++ flat_map (valid_line_of p) valid
  ++ invalid_heading ++ flat_map (invalid_line_of p) invalid.

(** What a call of the evaluator returns, when it returns: every string it
    prints must be encodable and the pattern must compile. *)
Definition result_of (name pattern : str) (valid invalid : list str) : option bool :=
  if encodable name && encodable pattern then
    match re_compile_object pattern with
    | inl _ => None
    | inr p =>
        if forallb encodable valid && forallb encodable invalid
        then Some (forallb (hit p) valid && forallb (fun s => negb (hit p s)) invalid)
        else None
    end
  else None.

Definition banner : str :=
  py "Issue Template Validation Pattern Tests" ++ [newline] ++ rule ++ [newline].

Definition summary (all_tests_passed : bool) : str :=
  ([newline] ++ rule) ++ [newline]
  ++ (if all_tests_passed
      then check_mark ++ py " ALL TESTS PASSED"
      else ballot_x ++ py " SOME TESTS FAILED") ++ [newline]
  ++ rule ++ [newline].

Definition shipped_cases : list PatternCase :=
  [issue_number; github_username; bot_username; app_id].

End Script.

(** ** What a case and a pattern accept, in closed form *)

(** A case passes when the evaluator returns true on it. *)
Definition case_passes (nd : codepoint -> bool)
           (re_beyond : str -> exn + (str -> option Match)) (c : PatternCase) : bool :=
  match result_of nd re_beyond (name c) (pattern c) (valid_inputs c) (invalid_inputs c) with
  | Some true => true
  | _ => false
  end.

(** An [re] module that knows no pattern beyond the parsed fragment. *)
Definition fragment_only : str -> exn + (str -> option Match) :=
  fun _ => inl Re_error.

(** A lone surrogate, U+D800. *)
Definition lone_surrogate : str := [55296%N].

Definition hyphen : codepoint := 45%N.

Definition is_alnum (c : codepoint) : bool :=
  ((97 <=? c)%N && (c <=? 122)%N)
  || ((65 <=? c)%N && (c <=? 90)%N)
  || ((48 <=? c)%N && (c <=? 57)%N).

Definition is_alnum_or_hyphen (c : codepoint) : bool :=
  is_alnum c || (c =? hyphen)%N.

(** One or more decimal digits. *)
Definition is_number (nd : codepoint -> bool) (body : str) : bool :=
  negb (Nat.eqb (List.length body) 0) && forallb (is_decimal nd) body.

(** A number, with or without a leading [#]. *)
Definition is_issue_number (nd : codepoint -> bool) (body : str) : bool :=
  match body with
  | c :: rest => if (c =? ch "#")%N then is_number nd rest else is_number nd body
  | [] => false
  end.

(** 1 to 39 letters, digits and hyphens, the first and the last of them
    not a hyphen. *)
Definition is_username (body : str) : bool :=
  match body with
  | [] => false
  | a :: _ =>
      (List.length body <=? 39) && forallb is_alnum_or_hyphen body
      && is_alnum a && is_alnum (last body a)
  end.

(** [s] is a string that satisfies [P], possibly followed by one newline. *)
Definition up_to_final_newline (P : str -> Prop) (s : str) : Prop :=
  exists body tail,
    s = body ++ tail /\ (tail = [] \/ tail = [newline]) /\ P body.

(** All characters of [s] at the positions from [i] up to [j] satisfy [P]. *)
Definition chars_in (P : codepoint -> bool) (s : str) (i j : nat) : Prop :=
  forall p, i <= p < j -> exists c, nth_error s p = Some c /\ P c = true.

(** The number of lines of a text: its newline characters. *)
Definition lines (out : str) : nat :=
  List.length (filter (fun c => (c =? newline)%N) out).

(** An extra case whose pattern is an unclosed group. *)
Definition unclosed_group_case : PatternCase := {|
  name := py "Unclosed group";
  pattern := py "(";
  valid_inputs := [py "a"];
  invalid_inputs := [py "b"]
|}.

(** The first [j] characters of [s] are a user name. *)
Definition username_span (s : str) (j : nat) : Prop :=
  1 <= j <= 39 /\ chars_in is_alnum_or_hyphen s 0 j /\
  (exists c, nth_error s 0 = Some c /\ is_alnum c = true) /\
  (exists c, nth_error s (j - 1) = Some c /\ is_alnum c = true).

(** * Properties *)

(** ** The four patterns, compiled *)

Example issue_number_compiled :
  re_compile (py "^#?\d+$")
  = Some (Seq At_beginning
            (Seq (Max_repeat 0 (Some 1) (Parser.literal (ch "#")))
                 (Seq (Max_repeat 1 None (In false [Category_digit])) At_end))).
Proof. reflexivity. Qed.

Example github_username_compiled :
  re_compile (py "^[a-zA-Z0-9]([a-zA-Z0-9-]{0,37}[a-zA-Z0-9])?$")
  = Some
      (Seq At_beginning
         (Seq (In false [Range 97 122; Range 65 90; Range 48 57])
            (Seq (Max_repeat 0 (Some 1)
                    (Subpattern true
                       (Seq (Max_repeat 0 (Some 37)
                               (In false [Range 97 122; Range 65 90; Range 48 57;
                                          Literal 45]))
                            (In false [Range 97 122; Range 65 90; Range 48 57]))))
                 At_end))).
Proof. reflexivity. Qed.

Example bot_username_compiled :
  re_compile (py "^[a-zA-Z0-9]([a-zA-Z0-9-]{0,37}[a-zA-Z0-9])?\[bot\]$")
  = Some
      (Seq At_beginning
         (Seq (In false [Range 97 122; Range 65 90; Range 48 57])
            (Seq (Max_repeat 0 (Some 1)
                    (Subpattern true
                       (Seq (Max_repeat 0 (Some 37)
                               (In false [Range 97 122; Range 65 90; Range 48 57;
                                          Literal 45]))
                            (In false [Range 97 122; Range 65 90; Range 48 57]))))
               (Seq (Parser.literal (ch "["))
                  (Seq (Parser.literal (ch "b"))
                     (Seq (Parser.literal (ch "o"))
                        (Seq (Parser.literal (ch "t"))
                           (Seq (Parser.literal (ch "]")) At_end)))))))).
Proof. reflexivity. Qed.

Example app_id_compiled :
  re_compile (py "^\d+$")
  = Some (Seq At_beginning (Seq (Max_repeat 1 None (In false [Category_digit])) At_end)).
Proof. reflexivity. Qed.

(** Strings that are not patterns: an open group, a repeated repeat, a
    reversed range, a stray closing parenthesis. *)
Example not_patterns :
  map re_compile [py "("; py "a**"; py "[z-a]"; py "a)"] = [None; None; None; None].
Proof. reflexivity. Qed.

(** The parser tells them from the patterns it leaves to the rest of the
    [re] module: a character class escape, a brace that opens no repeat, a
    lazy quantifier, a bound of ten digits. *)
Example rejected_or_beyond :
  map re_parse [py "("; py "a**"; py "[z-a]"; py "a)"; py "a{2,1}"; py "*a"]
  = [Parser.Rejected; Parser.Rejected; Parser.Rejected; Parser.Rejected;
     Parser.Rejected; Parser.Rejected] /\
  map re_parse [py "^\w+$"; py "a{"; py "^a+?$"; py "x{}"; py "a{1000000000}";
                py "(?i)a"]
  = [Parser.Beyond; Parser.Beyond; Parser.Beyond; Parser.Beyond; Parser.Beyond;
     Parser.Beyond].
Proof. split; reflexivity. Qed.

(** Greedy repetition tries the longest match first. *)
Example greedy_order nd :
  option_map (fun r => run nd r (py "aaab") 0) (re_compile (py "a*"))
  = Some [3; 2; 1; 0].
Proof. reflexivity. Qed.

(** A digit of another script is accepted by [\d] when the Unicode table
    lists it: U+0663 with a table that holds the Arabic-Indic digits. *)
Example unicode_digit :
  option_map (fun r => truthy (regex_match (fun c => (1632 <=? c)%N && (c <=? 1641)%N)
                                 r [1633%N; 50%N; 1635%N]))
             (re_compile (py "^\d+$"))
  = Some true.
Proof. reflexivity. Qed.

(** ** The matcher against the declarative semantics *)

Section Repeat.

Variable step : nat -> list nat.
Hypothesis step_forward : forall i k, List.In k (step i) -> i <= k.

Lemma rep_opt_self (c i : nat) : List.In i (rep_opt step c i).
Proof.
  destruct c as [|c]; simpl; [now left|].
  apply in_or_app. right. now left.
Qed.

Lemma rep_opt_unfold (c i j : nat) :
  List.In j (rep_opt step (S c) i) <->
  j = i \/ exists k, List.In k (step i) /\ i < k /\ List.In j (rep_opt step c k).
Proof.
  simpl. rewrite in_app_iff, in_flat_map. split.
  - intros [[k [Hk Hj]] | [E | []]]; [| now left].
    destruct (Nat.ltb_spec i k) as [Hlt | Hge].
    + right. exists k. auto.
    + left. destruct Hj as [E | []]. subst j.
      apply step_forward in Hk. lia.
  - intros [E | [k [Hk [Hlt Hj]]]].
    + right. left. now symmetry.
    + left. exists k. split; [assumption|].
      apply Nat.ltb_lt in Hlt. now rewrite Hlt.
Qed.

Lemma rep_opt_mono (c : nat) :
  forall c' i j, c <= c' -> List.In j (rep_opt step c i) -> List.In j (rep_opt step c' i).
Proof.
  induction c as [|c IH]; intros c' i j Hle Hin.
  - destruct Hin as [E | []]. subst j. apply rep_opt_self.
  - destruct c' as [|c']; [lia|].
    apply rep_opt_unfold in Hin. apply rep_opt_unfold.
    destruct Hin as [E | [k [Hk [Hlt Hj]]]]; [now left | right].
    exists k. repeat split; try assumption. apply IH; [lia | assumption].
Qed.

(** Once every iteration advances inside a string of length [n], [n - i]
    optional iterations from position [i] are as good as any number. *)
Lemma rep_opt_fuel (n : nat)
      (Hstep : forall i k, List.In k (step i) -> i < k -> k <= n) (c : nat) :
  forall c' i j, n - i <= c' ->
    List.In j (rep_opt step c i) -> List.In j (rep_opt step c' i).
Proof.
  induction c as [|c IH]; intros c' i j Hle Hin.
  - destruct Hin as [E | []]. subst j. apply rep_opt_self.
  - apply rep_opt_unfold in Hin.
    destruct Hin as [E | [k [Hk [Hlt Hj]]]]; [subst j; apply rep_opt_self|].
    pose proof (Hstep _ _ Hk Hlt) as Hn.
    destruct c' as [|c']; [lia|].
    apply rep_opt_unfold. right. exists k. repeat split; try assumption.
    apply IH; [lia | assumption].
Qed.

End Repeat.

Section Engine_correct.

Variable nd_non_ascii : codepoint -> bool.
Variable s : str.

Local Abbreviation Matches := (Matches nd_non_ascii s).
Local Abbreviation ends := (fun r => run nd_non_ascii r s).

Lemma at_end_spec (i : nat) :
  at_end s i = true <->
  i = List.length s \/ (S i = List.length s /\ nth_error s i = Some newline).
Proof.
  unfold at_end. rewrite orb_true_iff, andb_true_iff, !Nat.eqb_eq.
  destruct (nth_error s i) as [c|].
  - rewrite N.eqb_eq. split; (intros [H | [H1 H2]]; [now left | right; split]);
      try assumption; congruence.
  - split; (intros [H | [H1 H2]]; [now left | discriminate]).
Qed.

(** A match never moves backwards, and a match that advances stays inside
    the string. *)
Lemma Matches_bounds r i j :
  Matches r i j -> i <= j /\ (i < j -> j <= List.length s).
Proof.
  induction 1; try lia.
  - assert (i < List.length s) by (apply nth_error_Some; congruence). lia.
  - assert (i < List.length s) by (apply nth_error_Some; congruence). lia.
Qed.

Section Repeat_sound.

Variable r : regex.
Hypothesis IHr : forall i j, List.In j (ends r i) -> Matches r i j.

Lemma step_forward_of_sound i k : List.In k (ends r i) -> i <= k.
Proof. intros Hin. apply IHr, Matches_bounds in Hin. lia. Qed.

Lemma rep_opt_sound (c : nat) :
  forall hi i j, (forall h, hi = Some h -> c <= h) ->
    List.In j (rep_opt (ends r) c i) -> Matches (Max_repeat 0 hi r) i j.
Proof.
  induction c as [|c IH]; intros hi i j Hhi Hin.
  - destruct Hin as [E | []]. subst j. constructor.
  - apply rep_opt_unfold in Hin; [|exact step_forward_of_sound].
    destruct Hin as [E | [k [Hk [Hlt Hj]]]]; [subst j; constructor|].
    apply M_repeat_more with (k := k).
    + intros E. specialize (Hhi _ E). lia.
    + now apply IHr.
    + apply IH; [|assumption].
      intros h E. destruct hi as [h0|]; [|discriminate].
      injection E as <-. specialize (Hhi _ eq_refl). lia.
Qed.

Lemma rep_min_sound (lo : nat) :
  forall c hi i j, (forall h, hi = Some h -> lo + c <= h) ->
    List.In j (rep_min (ends r) lo (rep_opt (ends r) c) i) ->
    Matches (Max_repeat lo hi r) i j.
Proof.
  induction lo as [|lo IH]; intros c hi i j Hhi Hin.
  - now apply rep_opt_sound with (c := c).
  - simpl in Hin. apply in_flat_map in Hin. destruct Hin as [k [Hk Hj]].
    apply M_repeat_more with (k := k).
    + intros E. specialize (Hhi _ E). lia.
    + now apply IHr.
    + apply IH with (c := c); [|assumption].
      intros h E. destruct hi as [h0|]; [|discriminate].
      injection E as <-. specialize (Hhi _ eq_refl). lia.
Qed.

End Repeat_sound.

Lemma run_sound r : forall i j, List.In j (ends r i) -> Matches r i j.
Proof.
  induction r as [| negate items | | | | r1 IH1 r2 IH2 | r1 IH1 r2 IH2
                 | lo hi r1 IH1 | capturing r1 IH1]; intros i j Hin; simpl in Hin.
  - destruct Hin as [E | []]. subst j. constructor.
  - destruct (nth_error s i) as [c|] eqn:Hc; [|contradiction].
    destruct (set_mem nd_non_ascii negate items c) eqn:Hm; [|contradiction].
    destruct Hin as [E | []]. subst j. now apply M_in with (c := c).
  - destruct (nth_error s i) as [c|] eqn:Hc; [|contradiction].
    destruct (N.eqb_spec c newline) as [E | Hne]; [contradiction|].
    destruct Hin as [E | []]. subst j. now apply M_any with (c := c).
  - destruct (Nat.eqb_spec i 0) as [E | Hne]; [|contradiction].
    destruct Hin as [E' | []]. subst. constructor.
  - destruct (at_end s i) eqn:He; [|contradiction].
    destruct Hin as [E | []]. subst j. constructor. now apply at_end_spec.
  - apply in_flat_map in Hin. destruct Hin as [k [Hk Hj]].
    apply M_seq with (k := k); auto.
  - apply in_app_iff in Hin. destruct Hin as [H | H].
    + apply M_branch_l; auto.
    + apply M_branch_r; auto.
  - destruct hi as [h|].
    + destruct (Nat.ltb_spec h lo) as [Hlt | Hge]; [contradiction|].
      apply rep_min_sound with (c := h - lo); [assumption | | assumption].
      intros h' E. injection E as <-. lia.
    + apply rep_min_sound with (c := List.length s); [assumption | | assumption].
      intros h' E. discriminate.
  - constructor. auto.
Qed.

Lemma run_advances r i k :
  List.In k (ends r i) -> i < k -> k <= List.length s.
Proof.
  intros Hin. apply run_sound in Hin. now apply Matches_bounds in Hin.
Qed.

Lemma run_forward r i k : List.In k (ends r i) -> i <= k.
Proof.
  intros Hin. apply run_sound in Hin. apply Matches_bounds in Hin. lia.
Qed.

Lemma run_complete r i j : Matches r i j -> List.In j (ends r i).
Proof.
  induction 1 as [i | negate items i c Hc Hm | i c Hc Hne | | i He
                 | r1 r2 i k j _ IH1 _ IH2 | r1 r2 i j _ IH | r1 r2 i j _ IH
                 | hi r i | lo hi r i k j Hhi Hstep IH1 _ IH2
                 | capturing r i j _ IH]; simpl.
  - now left.
  - rewrite Hc, Hm. now left.
  - rewrite Hc. destruct (N.eqb_spec c newline); [contradiction | now left].
  - now left.
  - apply at_end_spec in He. rewrite He. now left.
  - apply in_flat_map. exists k. auto.
  - apply in_or_app. now left.
  - apply in_or_app. now right.
  - destruct hi as [h|]; simpl; apply rep_opt_self.
  - pose proof (Matches_bounds Hstep) as [Hik Hk].
    simpl in IH2. destruct hi as [h|]; simpl in IH2.
    + destruct (Nat.ltb_spec (pred h) (pred lo)) as [Hlt | Hge]; [contradiction|].
      destruct h as [|h]; [congruence|]. simpl in *.
      destruct lo as [|lo]; simpl in *.
      * rewrite Nat.sub_0_r in IH2.
        apply rep_opt_unfold; [exact (@run_forward r)|].
        destruct (Nat.eq_dec i k) as [E | Hne].
        -- subst k.
           apply rep_opt_mono with (c' := S h) in IH2;
             [| exact (@run_forward r) | lia].
           now apply rep_opt_unfold in IH2; [| exact (@run_forward r)].
        -- right. exists k. repeat split; [assumption | lia | assumption].
      * destruct (Nat.ltb_spec (S h) (S lo)) as [Hlt | _]; [lia|].
        apply in_flat_map. exists k. auto.
    + destruct lo as [|lo]; simpl in *.
      * destruct (Nat.eq_dec i k) as [E | Hne]; [now subst k|].
        assert (Hlen : k <= List.length s) by (apply Hk; lia).
        destruct (List.length s) as [|n] eqn:En; [lia|].
        apply rep_opt_unfold; [exact (@run_forward r)|]. right. exists k.
        repeat split; [assumption | lia |].
        apply rep_opt_fuel with (n := S n) (c := S n);
          [exact (@run_forward r) | | lia | assumption].
        intros i0 k0 Hin Hlt. rewrite <- En. now apply run_advances with (r := r) (i := i0).
      * apply in_flat_map. exists k. auto.
  - assumption.
Qed.

(** The backtracking matcher finds exactly the declared matches. *)
Lemma run_spec r i j : List.In j (ends r i) <-> Matches r i j.
Proof. split; [apply run_sound | apply run_complete]. Qed.

Lemma regex_match_spec r :
  truthy (regex_match nd_non_ascii r s) = true <-> matches_from_start nd_non_ascii r s.
Proof.
  unfold regex_match, matches_from_start. split.
  - destruct (run nd_non_ascii r s 0) as [|e l] eqn:E; [discriminate|].
    intros _. exists e.
    assert (Hm : Matches r 0 e) by (apply run_sound; simpl; rewrite E; now left).
    split; [|assumption].
    apply Matches_bounds in Hm. destruct e; [lia | apply Hm; lia].
  - intros [j [_ Hm]]. apply run_complete in Hm. simpl in Hm.
    destruct (run nd_non_ascii r s 0); [contradiction | reflexivity].
Qed.

End Engine_correct.

(** ** The evaluator's loops *)


Lemma encodable_app (a b : str) : encodable (a ++ b) = encodable a && encodable b.
Proof. apply forallb_app. Qed.

Lemma bind_eq {A B} (c : io A) (k : A -> io B) out :
  bind c k out = match c out with
                 | Returns a out' => k a out'
                 | Raises e out' => Raises e out'
                 end.
Proof. reflexivity. Qed.

Lemma print_bind {B} (line : str) (k : unit -> io B) out :
  encodable line = true ->
  bind (print line) k out = k tt (out ++ line ++ [newline]).
Proof. intros H. unfold bind, print. now rewrite H. Qed.

Lemma print_fails {B} (line : str) (k : unit -> io B) out :
  encodable line = false ->
  bind (print line) k out = Raises (Unicode_encode_error line) out.
Proof. intros H. unfold bind, print. now rewrite H. Qed.

Lemma ret_bind {A B} (a : A) (k : A -> io B) out : bind (ret a) k out = k a out.
Proof. reflexivity. Qed.

Lemma raise_bind {A B} (e : exn) (k : A -> io B) out :
  bind (raise e) k out = Raises e out.
Proof. reflexivity. Qed.

Lemma value_bind_none {A B} (c : io A) (k : A -> io B) out :
  value_of (c out) = None -> value_of (bind c k out) = None.
Proof. unfold bind. destruct (c out); [discriminate | reflexivity]. Qed.

(** A loop whose lines can all be encoded runs to its end. *)
Lemma for_in_report {A} (P ok : A -> bool) (pass fail : A -> str) (xs : list A) :
  (forall x, encodable (pass x) = ok x) ->
  (forall x, encodable (fail x) = ok x) ->
  forallb ok xs = true ->
  forall acc out,
    for_in xs (fun x acc =>
                 if P x then print (pass x) ;; ret acc
                 else print (fail x) ;; ret false) acc out
    = Returns (acc && forallb P xs)
              (out ++ flat_map (fun x => (if P x then pass x else fail x) ++ [newline]) xs).
Proof.
  intros Hpass Hfail.
  induction xs as [|x xs IH]; intros Hok acc out; simpl.
  - unfold ret. now rewrite andb_true_r, app_nil_r.
  - simpl in Hok. apply andb_true_iff in Hok. destruct Hok as [Hx Hxs].
    rewrite bind_eq.
    destruct (P x); (rewrite print_bind; [|congruence]); unfold ret at 1;
      rewrite (IH Hxs); rewrite <- !app_assoc; simpl.
    + reflexivity.
    + now rewrite andb_false_r.
Qed.

(** A loop with a line that cannot be encoded raises. *)
Lemma for_in_raises {A} (P ok : A -> bool) (pass fail : A -> str) (xs : list A) :
  (forall x, encodable (pass x) = ok x) ->
  (forall x, encodable (fail x) = ok x) ->
  forallb ok xs = false ->
  forall acc out,
    value_of (for_in xs (fun x acc =>
                           if P x then print (pass x) ;; ret acc
                           else print (fail x) ;; ret false) acc out) = None.
Proof.
  intros Hpass Hfail.
  induction xs as [|x xs IH]; intros Hok acc out; simpl in *; [discriminate|].
  rewrite bind_eq.
  destruct (ok x) eqn:Hx; simpl in Hok.
  - destruct (P x); (rewrite print_bind; [|congruence]); unfold ret at 1;
      apply (IH Hok).
  - destruct (P x); (rewrite print_fails; [|congruence]); reflexivity.
Qed.

Ltac line_encodable :=
  intros; rewrite !encodable_app; simpl; now rewrite ?andb_true_r.

Lemma encodable_valid_pass s :
  encodable (py "  " ++ check_mark ++ py " '" ++ s ++ py "' - PASS") = encodable s.
Proof. line_encodable. Qed.

Lemma encodable_valid_fail s :
  encodable (py "  " ++ ballot_x ++ py " '" ++ s ++ py "' - FAIL (should match)")
  = encodable s.
Proof. line_encodable. Qed.

Lemma encodable_invalid_pass s :
  encodable (py "  " ++ check_mark ++ py " '" ++ s ++ py "' - PASS (correctly rejected)")
  = encodable s.
Proof. line_encodable. Qed.

Lemma encodable_invalid_fail s :
  encodable (py "  " ++ ballot_x ++ py " '" ++ s ++ py "' - FAIL (should not match)")
  = encodable s.
Proof. line_encodable. Qed.

Lemma encodable_testing name : encodable (py "Testing: " ++ name) = encodable name.
Proof. line_encodable. Qed.

Lemma encodable_pattern pattern :
  encodable (py "Pattern: " ++ pattern) = encodable pattern.
Proof. line_encodable. Qed.

Lemma appends_ret {A} (a : A) : appends (ret a).
Proof. intros out. unfold ret. simpl. now rewrite app_nil_r. Qed.

Lemma appends_raise {A} (e : exn) : appends (@raise A e).
Proof. intros out. unfold raise. simpl. now rewrite app_nil_r. Qed.

Lemma appends_print line : appends (print line).
Proof.
  intros out. unfold print. destruct (encodable line); simpl;
    [reflexivity | now rewrite app_nil_r].
Qed.

Lemma appends_bind {A B} (c : io A) (k : A -> io B) :
  appends c -> (forall a, appends (k a)) -> appends (bind c k).
Proof.
  intros Hc Hk out. unfold bind. rewrite (Hc out).
  destruct (c []) as [a printed | e printed]; simpl; [|reflexivity].
  rewrite (Hk a (out ++ printed)), (Hk a printed).
  destruct (k a []); simpl; now rewrite app_assoc.
Qed.

Lemma appends_for_in {A St} (xs : list A) (body : A -> St -> io St) :
  (forall x st, appends (body x st)) -> forall st, appends (for_in xs body st).
Proof.
  intros Hbody. induction xs as [|x xs IH]; intros st; simpl.
  - apply appends_ret.
  - apply appends_bind; [apply Hbody | apply IH].
Qed.

Section Runner.

Variable nd_non_ascii : codepoint -> bool.
Variable re_beyond : str -> exn + (str -> option Match).


Lemma re_compile_object_rejected pattern :
  re_parse pattern = Parser.Rejected ->
  re_compile_object re_beyond pattern = inl Re_error.
Proof. unfold re_compile_object. now intros ->. Qed.

Ltac print_step :=
  rewrite print_bind
    by (first [ reflexivity
              | rewrite ?encodable_testing, ?encodable_pattern; assumption ]);
  cbv beta.

(** A call of the evaluator on a pattern that compiles, with strings that
    standard output can encode, returns, having printed the whole report. *)
Lemma test_pattern_returns_object name pattern p valid invalid out :
  re_compile_object re_beyond pattern = inr p ->
  encodable name = true -> encodable pattern = true ->
  forallb encodable valid = true -> forallb encodable invalid = true ->
  test_pattern nd_non_ascii re_beyond name pattern valid invalid out
  = Returns (forallb (hit nd_non_ascii p) valid
             && forallb (fun s => negb (hit nd_non_ascii p s)) invalid)
            (out ++ report_of nd_non_ascii name pattern p valid invalid).
Proof.
  intros Hc Hn Hp Hv Hi. unfold test_pattern, compile. rewrite Hc.
  do 4 print_step. rewrite ret_bind. cbv beta zeta. print_step.
  rewrite bind_eq.
  rewrite (for_in_report (hit nd_non_ascii p) encodable _ _ valid
             encodable_valid_pass encodable_valid_fail Hv).
  print_step. rewrite bind_eq.
  rewrite (for_in_report (fun x => negb (hit nd_non_ascii p x)) encodable _ _ invalid
             encodable_invalid_pass encodable_invalid_fail Hi).
  unfold ret, report_of, header, valid_heading, invalid_heading,
    valid_line_of, invalid_line_of.
  simpl andb. f_equal. rewrite <- !app_assoc. reflexivity.
Qed.


(** When [re.compile] raises, the evaluator raises after the header. *)
Lemma test_pattern_raises name pattern e valid invalid out :
  re_compile_object re_beyond pattern = inl e ->
  encodable name = true -> encodable pattern = true ->
  test_pattern nd_non_ascii re_beyond name pattern valid invalid out
  = Raises e (out ++ header name pattern).
Proof.
  intros Hc Hn Hp. unfold test_pattern, compile. rewrite Hc.
  do 4 print_step. rewrite raise_bind.
  unfold header. f_equal. rewrite <- !app_assoc. reflexivity.
Qed.

(** What the evaluator returns, for every input. *)
Lemma test_pattern_value name pattern valid invalid out :
  value_of (test_pattern nd_non_ascii re_beyond name pattern valid invalid out)
  = result_of nd_non_ascii re_beyond name pattern valid invalid.
Proof.
  unfold result_of.
  destruct (encodable name) eqn:Hn; simpl.
  2:{ unfold test_pattern. print_step.
      rewrite print_fails by (now rewrite encodable_testing). reflexivity. }
  destruct (encodable pattern) eqn:Hp.
  2:{ unfold test_pattern. do 2 print_step.
      rewrite print_fails by (now rewrite encodable_pattern). reflexivity. }
  destruct (re_compile_object re_beyond pattern) as [e | p] eqn:Hc.
  { now rewrite (@test_pattern_raises name pattern e valid invalid out Hc Hn Hp). }
  destruct (forallb encodable valid) eqn:Hv; simpl.
  2:{ unfold test_pattern, compile. rewrite Hc.
      do 4 print_step. rewrite ret_bind. cbv beta zeta. print_step.
      apply value_bind_none.
      apply (for_in_raises (hit nd_non_ascii p) encodable _ _ valid
               encodable_valid_pass encodable_valid_fail Hv). }
  destruct (forallb encodable invalid) eqn:Hi.
  { now rewrite (@test_pattern_returns_object name pattern p valid invalid out Hc Hn Hp Hv Hi). }
  unfold test_pattern, compile. rewrite Hc.
  do 4 print_step. rewrite ret_bind. cbv beta zeta. print_step.
  rewrite bind_eq.
  rewrite (for_in_report (hit nd_non_ascii p) encodable _ _ valid
             encodable_valid_pass encodable_valid_fail Hv).
  print_step.
  apply value_bind_none.
  apply (for_in_raises (fun x => negb (hit nd_non_ascii p x)) encodable _ _ invalid
           encodable_invalid_pass encodable_invalid_fail Hi).
Qed.

(** The evaluator only appends to standard output: its outcome and what
    it prints do not depend on what was printed before. *)
Lemma test_pattern_frame name pattern valid invalid :
  appends (test_pattern nd_non_ascii re_beyond name pattern valid invalid).
Proof.
  unfold test_pattern.
  repeat (apply appends_bind; [try apply appends_print | intros]).
  - unfold compile. destruct (re_compile_object re_beyond pattern);
      [apply appends_raise | apply appends_ret].
  - apply appends_for_in. intros x st.
    destruct (truthy _);
      (apply appends_bind; [apply appends_print | intros; apply appends_ret]).
  - apply appends_for_in. intros x st.
    destruct (negb _);
      (apply appends_bind; [apply appends_print | intros; apply appends_ret]).
  - apply appends_ret.
Qed.

Lemma matched_spec r s :
  matched nd_non_ascii r s = true <-> matches_from_start nd_non_ascii r s.
Proof. apply regex_match_spec. Qed.


End Runner.
(** ** The evaluator's contract *)

Section Evaluator.

Variable nd_non_ascii : codepoint -> bool.
Variable re_beyond : str -> exn + (str -> option Match).




(** C10 (amended): a name that standard output can encode does not
    interfere with the result: two calls that differ in such a name (and
    in what was printed before them) both return the same boolean, or both
    raise. *)
Theorem test_pattern_name_irrelevant name1 name2 pattern valid invalid out1 out2 :
  encodable name1 = true -> encodable name2 = true ->
  value_of (test_pattern nd_non_ascii re_beyond name1 pattern valid invalid out1)
  = value_of (test_pattern nd_non_ascii re_beyond name2 pattern valid invalid out2).
Proof.
  intros H1 H2. rewrite !test_pattern_value. unfold result_of.
  now rewrite H1, H2.
Qed.

End Evaluator.
(** ** The driver *)

Lemma returns_of {A} (o : outcome A) (a : A) :
  value_of o = Some a -> o = Returns a (output_of o).
Proof. destruct o; simpl; congruence. Qed.

Section Driver.

Variable nd_non_ascii : codepoint -> bool.
Variable re_beyond : str -> exn + (str -> option Match).

Lemma run_case_frame c (b : bool) out :
  value_of (run_case nd_non_ascii re_beyond c []) = Some b ->
  run_case nd_non_ascii re_beyond c out
  = Returns b (out ++ output_of (run_case nd_non_ascii re_beyond c [])).
Proof.
  intros Hb. apply returns_of in Hb. unfold run_case in *.
  rewrite test_pattern_frame, Hb. reflexivity.
Qed.

(** C3: [main] calls the evaluator on the four cases in turn, whatever the
    earlier calls returned; when they return [b1], [b2], [b3] and [b4] it
    returns 0 if their conjunction is true and 1 if one of them is false,
    after the banner, the four reports and the summary; and that value is
    the exit status of the process.  Stated for the body of [main] on any
    four cases, of which [main] is the instance on the shipped ones. *)
Theorem main_on_exit_status c1 c2 c3 c4 b1 b2 b3 b4 out :
  value_of (run_case nd_non_ascii re_beyond c1 []) = Some b1 ->
  value_of (run_case nd_non_ascii re_beyond c2 []) = Some b2 ->
  value_of (run_case nd_non_ascii re_beyond c3 []) = Some b3 ->
  value_of (run_case nd_non_ascii re_beyond c4 []) = Some b4 ->
  main_on nd_non_ascii re_beyond c1 c2 c3 c4 out
  = Returns (if b1 && b2 && b3 && b4 then 0 else 1)
      (out ++ banner
           ++ output_of (run_case nd_non_ascii re_beyond c1 [])
           ++ output_of (run_case nd_non_ascii re_beyond c2 [])
           ++ output_of (run_case nd_non_ascii re_beyond c3 [])
           ++ output_of (run_case nd_non_ascii re_beyond c4 [])
           ++ summary (b1 && b2 && b3 && b4)) /\
  exit_code (sys_exit (main_on nd_non_ascii re_beyond c1 c2 c3 c4 out))
  = (if b1 && b2 && b3 && b4 then 0 else 1) /\
  main nd_non_ascii re_beyond
  = main_on nd_non_ascii re_beyond issue_number github_username bot_username app_id.
Proof.
  intros H1 H2 H3 H4.
  assert (E : main_on nd_non_ascii re_beyond c1 c2 c3 c4 out
              = Returns (if b1 && b2 && b3 && b4 then 0 else 1)
                  (out ++ banner
                       ++ output_of (run_case nd_non_ascii re_beyond c1 [])
                       ++ output_of (run_case nd_non_ascii re_beyond c2 [])
                       ++ output_of (run_case nd_non_ascii re_beyond c3 [])
                       ++ output_of (run_case nd_non_ascii re_beyond c4 [])
                       ++ summary (b1 && b2 && b3 && b4))).
  { unfold main_on.
    repeat (rewrite print_bind by reflexivity; cbv beta).
    rewrite bind_eq, (run_case_frame _ _ H1). cbv beta zeta.
    rewrite bind_eq, (run_case_frame _ _ H2).
    rewrite bind_eq, (run_case_frame _ _ H3).
    rewrite bind_eq, (run_case_frame _ _ H4).
    rewrite print_bind by reflexivity. cbv beta. change (true && b1) with b1.
    unfold summary, banner.
    destruct (b1 && b2 && b3 && b4); cbv iota;
      repeat (rewrite print_bind by reflexivity; cbv beta); unfold ret;
      f_equal; rewrite <- !app_assoc; reflexivity. }
  split; [exact E | split; [now rewrite E | reflexivity]].
Qed.

End Driver.

(** ** The shipped pattern cases *)

Lemma all_matched nd r (l : list str) :
  forallb (matched nd r) l = true -> Forall (matches_from_start nd r) l.
Proof.
  rewrite forallb_forall, Forall_forall. intros H s Hs.
  apply matched_spec. auto.
Qed.

Lemma none_matched nd r (l : list str) :
  forallb (fun s => negb (matched nd r s)) l = true ->
  Forall (fun s => ~ matches_from_start nd r s) l.
Proof.
  rewrite forallb_forall, Forall_forall. intros H s Hs.
  rewrite <- matched_spec. specialize (H s Hs).
  destruct (matched nd r s); [discriminate | congruence].
Qed.

(** The script's run does not depend on the Unicode table or on the rest
    of the [re] module: every example of the shipped tables is ASCII and
    every shipped pattern is in the parsed fragment. *)
Lemma script_run nd re_beyond argv environ :
  script nd re_beyond argv environ = script ascii_digits_only fragment_only [] [].
Proof. vm_compute. reflexivity. Qed.

(** C1: on the four shipped cases the script exits with status 0; each of
    the 20 valid examples matches its case's pattern from the start of the
    string, and none of the 34 invalid examples does. *)
Theorem shipped_cases_exit_zero nd re_beyond argv environ :
  exit_code (script nd re_beyond argv environ) = 0 /\
  Forall (fun c =>
            exists r, re_compile (pattern c) = Some r /\
                      Forall (matches_from_start nd r) (valid_inputs c) /\
                      Forall (fun s => ~ matches_from_start nd r s) (invalid_inputs c))
         shipped_cases /\
  List.length (flat_map valid_inputs shipped_cases) = 20 /\
  List.length (flat_map invalid_inputs shipped_cases) = 34.
Proof.
  split; [rewrite script_run; reflexivity|].
  split; [|split; reflexivity].
  unfold shipped_cases.
  repeat (apply Forall_cons;
          [eexists; split; [vm_compute; reflexivity|];
           split; [apply all_matched | apply none_matched]; vm_compute; reflexivity|]).
  apply Forall_nil.
Qed.

(** C5: under the GitHub Username pattern the 39-character string
    [a], 37 times [1], [b] matches, and the 40-character string
    [a], 38 times [1], [b] does not. *)
Theorem github_username_length_boundary nd :
  exists r,
    re_compile (py "^[a-zA-Z0-9]([a-zA-Z0-9-]{0,37}[a-zA-Z0-9])?$") = Some r /\
    pattern github_username = py "^[a-zA-Z0-9]([a-zA-Z0-9-]{0,37}[a-zA-Z0-9])?$" /\
    List.length (py "a" ++ str_mul (py "1") 37 ++ py "b") = 39 /\
    matched nd r (py "a" ++ str_mul (py "1") 37 ++ py "b") = true /\
    matches_from_start nd r (py "a" ++ str_mul (py "1") 37 ++ py "b") /\
    List.length (py "a" ++ str_mul (py "1") 38 ++ py "b") = 40 /\
    matched nd r (py "a" ++ str_mul (py "1") 38 ++ py "b") = false /\
    ~ matches_from_start nd r (py "a" ++ str_mul (py "1") 38 ++ py "b").
Proof.
  eexists. split; [vm_compute; reflexivity|].
  repeat split; try reflexivity.
  - apply matched_spec. vm_compute. reflexivity.
  - rewrite <- matched_spec. vm_compute. discriminate.
Qed.

(** C6: the Bot Username pattern does not match [copilot[BOT]]: the
    suffix [[bot]] is matched case-sensitively (and [copilot[bot]] does
    match). *)
Theorem bot_username_suffix_case_sensitive nd :
  exists r,
    re_compile (py "^[a-zA-Z0-9]([a-zA-Z0-9-]{0,37}[a-zA-Z0-9])?\[bot\]$") = Some r /\
    pattern bot_username = py "^[a-zA-Z0-9]([a-zA-Z0-9-]{0,37}[a-zA-Z0-9])?\[bot\]$" /\
    matched nd r (py "copilot[BOT]") = false /\
    ~ matches_from_start nd r (py "copilot[BOT]") /\
    matches_from_start nd r (py "copilot[bot]").
Proof.
  eexists. split; [vm_compute; reflexivity|].
  repeat split.
  - rewrite <- matched_spec. vm_compute. discriminate.
  - apply matched_spec. vm_compute. reflexivity.
Qed.


(** Matching from the start is not a search: [b] occurs in [ab] at
    position 1, yet the evaluator does not count [ab] as matching [b]. *)
Example match_is_not_search nd re_beyond out :
  Matches nd (py "ab") (Parser.literal (ch "b")) 1 2 /\
  re_compile (py "b") = Some (Parser.literal (ch "b")) /\
  value_of (test_pattern nd re_beyond (py "b in ab") (py "b") [py "ab"] [] out)
  = Some false.
Proof.
  split; [|split].
  - apply run_sound. vm_compute. now left.
  - reflexivity.
  - rewrite test_pattern_value. reflexivity.
Qed.

(** Matching from the start is not a full match: the evaluator counts
    [ab] as matching [a], although [a] does not match all of [ab]. *)
Example match_is_not_fullmatch nd re_beyond out :
  ~ Matches nd (py "ab") (Parser.literal (ch "a")) 0 2 /\
  re_compile (py "a") = Some (Parser.literal (ch "a")) /\
  value_of (test_pattern nd re_beyond (py "a in ab") (py "a") [py "ab"] [] out)
  = Some true.
Proof.
  split; [|split].
  - intros H. apply run_complete in H. vm_compute in H.
    destruct H as [H | []]. discriminate.
  - reflexivity.
  - rewrite test_pattern_value. reflexivity.
Qed.

(** A pattern beyond the fragment is run with the [match] method the [re]
    module gives for it. *)
Example beyond_the_fragment nd (m : str -> option Match) out :
  value_of (test_pattern nd (fun _ => inr m) (py "Word") (py "^\w+$")
              [py "abc"] [py "a b"] out)
  = Some (truthy (m (py "abc")) && negb (truthy (m (py "a b")))).
Proof.
  rewrite test_pattern_value. unfold result_of. simpl.
  now rewrite !andb_true_r.
Qed.

(** ** Instances on the shipped App ID case *)




Lemma test_pattern_name_irrelevant_witness :
  encodable (name app_id) = true /\ encodable (name issue_number) = true /\
  value_of (test_pattern ascii_digits_only fragment_only (name app_id) (pattern app_id)
              (valid_inputs app_id) (invalid_inputs app_id) [])
  = value_of (test_pattern ascii_digits_only fragment_only (name issue_number)
                (pattern app_id) (valid_inputs app_id) (invalid_inputs app_id) []).
Proof.
  do 2 (split; [reflexivity|]).
  apply (@test_pattern_name_irrelevant ascii_digits_only fragment_only
           (name app_id) (name issue_number)); reflexivity.
Defined.


Lemma main_on_exit_status_witness :
  value_of (run_case ascii_digits_only fragment_only issue_number []) = Some true /\
  value_of (run_case ascii_digits_only fragment_only github_username []) = Some true /\
  value_of (run_case ascii_digits_only fragment_only bot_username []) = Some true /\
  value_of (run_case ascii_digits_only fragment_only app_id []) = Some true /\
  main_on ascii_digits_only fragment_only issue_number github_username bot_username app_id []
  = Returns (if true && true && true && true then 0 else 1)
      ([] ++ banner
          ++ output_of (run_case ascii_digits_only fragment_only issue_number [])
          ++ output_of (run_case ascii_digits_only fragment_only github_username [])
          ++ output_of (run_case ascii_digits_only fragment_only bot_username [])
          ++ output_of (run_case ascii_digits_only fragment_only app_id [])
          ++ summary (true && true && true && true)) /\
  exit_code (sys_exit (main_on ascii_digits_only fragment_only issue_number
                         github_username bot_username app_id []))
  = (if true && true && true && true then 0 else 1) /\
  main ascii_digits_only fragment_only
  = main_on ascii_digits_only fragment_only issue_number github_username
      bot_username app_id.
Proof.
  assert (H1 : value_of (run_case ascii_digits_only fragment_only issue_number [])
               = Some true) by (vm_compute; reflexivity).
  assert (H2 : value_of (run_case ascii_digits_only fragment_only github_username [])
               = Some true) by (vm_compute; reflexivity).
  assert (H3 : value_of (run_case ascii_digits_only fragment_only bot_username [])
               = Some true) by (vm_compute; reflexivity).
  assert (H4 : value_of (run_case ascii_digits_only fragment_only app_id [])
               = Some true) by (vm_compute; reflexivity).
  repeat (split; [assumption|]).
  exact (@main_on_exit_status ascii_digits_only fragment_only issue_number
           github_username bot_username app_id true true true true [] H1 H2 H3 H4).
Defined.

(** ** A string that standard output cannot encode

    The lone surrogate U+D800 is a Python string that [.] matches and
    that [print] cannot write. *)





(** C10 as stated, at the names U+D800 and [n], the App ID pattern and
    the valid example [1]: the call under the first name raises while
    printing the name, the call under the second returns true. *)
Lemma test_pattern_name_irrelevant_counterexample :
  test_pattern ascii_digits_only fragment_only lone_surrogate (pattern app_id)
    [py "1"] [] []
  = Raises (Unicode_encode_error (py "Testing: " ++ lone_surrogate))
           (([newline] ++ rule) ++ [newline]) /\
  value_of (test_pattern ascii_digits_only fragment_only (py "n") (pattern app_id)
              [py "1"] [] []) = Some true /\
  value_of (test_pattern ascii_digits_only fragment_only lone_surrogate (pattern app_id)
              [py "1"] [] [])
  <> value_of (test_pattern ascii_digits_only fragment_only (py "n") (pattern app_id)
                 [py "1"] [] []).
Proof.
  split; [reflexivity|]. split; [reflexivity|]. discriminate.
Qed.
(** * Further properties of the evaluator and the driver *)

Lemma forallb_incl {A} (P : A -> bool) (l l' : list A) :
  incl l' l -> forallb P l = true -> forallb P l' = true.
Proof.
  rewrite !forallb_forall. intros Hincl H x Hx. apply H, Hincl, Hx.
Qed.

Section Evaluator_more.

Variable nd_non_ascii : codepoint -> bool.
Variable re_beyond : str -> exn + (str -> option Match).

(** A case either returns or raises, the same way after any output. *)
Lemma run_case_outcome c :
  (exists b printed,
      result_of nd_non_ascii re_beyond (name c) (pattern c)
        (valid_inputs c) (invalid_inputs c) = Some b /\
      forall out, run_case nd_non_ascii re_beyond c out = Returns b (out ++ printed)) \/
  (exists e printed,
      result_of nd_non_ascii re_beyond (name c) (pattern c)
        (valid_inputs c) (invalid_inputs c) = None /\
      forall out, run_case nd_non_ascii re_beyond c out = Raises e (out ++ printed)).
Proof.
  unfold run_case.
  pose proof (test_pattern_value nd_non_ascii re_beyond (name c) (pattern c)
                (valid_inputs c) (invalid_inputs c) []) as Hv.
  pose proof (@test_pattern_frame nd_non_ascii re_beyond (name c) (pattern c)
                (valid_inputs c) (invalid_inputs c)) as Hf.
  destruct (test_pattern nd_non_ascii re_beyond (name c) (pattern c)
              (valid_inputs c) (invalid_inputs c) []) as [b printed | e printed] eqn:E.
  - left. exists b, printed. split; [now symmetry|].
    intros out. rewrite (Hf out), E. reflexivity.
  - right. exists e, printed. split; [now symmetry|].
    intros out. rewrite (Hf out), E. reflexivity.
Qed.

(** X1: a pattern that [re.compile] rejects with [re.error] makes the
    evaluator raise that error right after the header (name and pattern
    being strings that standard output can encode): no example of either
    list is evaluated or reported, whatever the lists hold. *)
Theorem rejected_pattern_raises_after_header name pattern valid invalid out :
  re_parse pattern = Parser.Rejected ->
  encodable name = true -> encodable pattern = true ->
  test_pattern nd_non_ascii re_beyond name pattern valid invalid out
  = Raises Re_error (out ++ header name pattern) /\
  test_pattern nd_non_ascii re_beyond name pattern valid invalid out
  = test_pattern nd_non_ascii re_beyond name pattern [] [] out.
Proof.
  intros Hc Hn Hp.
  pose proof (re_compile_object_rejected re_beyond pattern Hc) as Ho.
  rewrite (@test_pattern_raises nd_non_ascii re_beyond name pattern Re_error
             valid invalid out Ho Hn Hp).
  rewrite (@test_pattern_raises nd_non_ascii re_beyond name pattern Re_error
             [] [] out Ho Hn Hp).
  split; reflexivity.
Qed.

(** X2: examples can only be dropped from a passing case: if the
    evaluator returns true on two lists, it returns true on any lists whose
    strings all occur in them, in any order and with any repetition. *)
Theorem passing_case_stays_passing name pattern valid invalid valid' invalid' out out' :
  incl valid' valid -> incl invalid' invalid ->
  value_of (test_pattern nd_non_ascii re_beyond name pattern valid invalid out)
  = Some true ->
  value_of (test_pattern nd_non_ascii re_beyond name pattern valid' invalid' out')
  = Some true.
Proof.
  intros Hv Hi. rewrite !test_pattern_value. unfold result_of.
  destruct (encodable name && encodable pattern); [|discriminate].
  destruct (re_compile_object re_beyond pattern) as [e | p]; [discriminate|].
  destruct (forallb encodable valid && forallb encodable invalid) eqn:He;
    [|discriminate].
  apply andb_true_iff in He. destruct He as [He1 He2].
  rewrite (forallb_incl _ Hv He1), (forallb_incl _ Hi He2). simpl.
  intros H. injection H as H. apply andb_true_iff in H. destruct H as [H1 H2].
  now rewrite (forallb_incl _ Hv H1), (forallb_incl _ Hi H2).
Qed.

(** X3: the result on concatenated example lists is the conjunction of
    the results on the parts (and the call raises when the parts do). *)
Theorem test_pattern_on_appended_lists name pattern v1 v2 i1 i2 out out1 out2 :
  value_of (test_pattern nd_non_ascii re_beyond name pattern (v1 ++ v2) (i1 ++ i2) out)
  = match value_of (test_pattern nd_non_ascii re_beyond name pattern v1 i1 out1),
          value_of (test_pattern nd_non_ascii re_beyond name pattern v2 i2 out2) with
    | Some b1, Some b2 => Some (b1 && b2)
    | _, _ => None
    end.
Proof.
  rewrite !test_pattern_value. unfold result_of.
  destruct (encodable name && encodable pattern); [|reflexivity].
  destruct (re_compile_object re_beyond pattern) as [e | p]; [reflexivity|].
  rewrite !forallb_app.
  destruct (forallb encodable v1), (forallb encodable v2),
           (forallb encodable i1), (forallb encodable i2); simpl; try reflexivity.
  f_equal.
  destruct (forallb (hit nd_non_ascii p) v1),
           (forallb (hit nd_non_ascii p) v2),
           (forallb (fun s => negb (hit nd_non_ascii p s)) i1),
           (forallb (fun s => negb (hit nd_non_ascii p s)) i2); reflexivity.
Qed.

(** X4: a string listed both as a valid and as an invalid example makes
    the case fail, whatever the pattern: the evaluator never returns true
    on such lists. *)
Theorem shared_example_fails name pattern valid invalid s out :
  List.In s valid -> List.In s invalid ->
  value_of (test_pattern nd_non_ascii re_beyond name pattern valid invalid out)
  <> Some true.
Proof.
  intros Hv Hi. rewrite test_pattern_value. unfold result_of.
  destruct (encodable name && encodable pattern); [|discriminate].
  destruct (re_compile_object re_beyond pattern) as [e | p]; [discriminate|].
  destruct (forallb encodable valid && forallb encodable invalid); [|discriminate].
  intros H. injection H as H.
  rewrite andb_true_iff, !forallb_forall in H. destruct H as [H1 H2].
  specialize (H1 s Hv). specialize (H2 s Hi). rewrite H1 in H2. discriminate.
Qed.

(** X5: the exit status of the driver on any four cases: 0 when the
    evaluator returns true on every one of them, 1 in every other run,
    also when an exception ends the process. *)
Theorem exit_status_of_any_cases c1 c2 c3 c4 out :
  exit_code (sys_exit (main_on nd_non_ascii re_beyond c1 c2 c3 c4 out))
  = if case_passes nd_non_ascii re_beyond c1 && case_passes nd_non_ascii re_beyond c2
       && case_passes nd_non_ascii re_beyond c3 && case_passes nd_non_ascii re_beyond c4
    then 0 else 1.
Proof.
  unfold main_on, case_passes.
  repeat (rewrite print_bind by reflexivity; cbv beta).
  rewrite bind_eq.
  destruct (run_case_outcome c1) as [[b1 [p1 [-> H1]]] | [e1 [p1 [-> H1]]]];
    rewrite H1; [|reflexivity]. cbv beta zeta.
  rewrite bind_eq.
  destruct (run_case_outcome c2) as [[b2 [p2 [-> H2]]] | [e2 [p2 [-> H2]]]];
    rewrite H2; [|simpl; now rewrite andb_false_r].
  rewrite bind_eq.
  destruct (run_case_outcome c3) as [[b3 [p3 [-> H3]]] | [e3 [p3 [-> H3]]]];
    rewrite H3; [|simpl; now rewrite andb_false_r].
  rewrite bind_eq.
  destruct (run_case_outcome c4) as [[b4 [p4 [-> H4]]] | [e4 [p4 [-> H4]]]];
    rewrite H4; [|simpl; now rewrite andb_false_r].
  rewrite print_bind by reflexivity. cbv beta.
  destruct b1, b2, b3, b4; cbv iota; simpl andb; cbv iota;
    repeat (rewrite print_bind by reflexivity; cbv beta); reflexivity.
Qed.

(** X6: a rejected pattern stops the run: when the first case returns and
    [re.compile] rejects the second case's pattern with [re.error] (its
    name and pattern being strings that standard output can encode), the
    driver raises that error after the banner, the first report and the
    second header; the third and fourth cases are never evaluated and no
    summary is printed. *)
Theorem rejected_pattern_stops_the_run c1 c2 c3 c4 b1 out :
  value_of (run_case nd_non_ascii re_beyond c1 []) = Some b1 ->
  re_parse (pattern c2) = Parser.Rejected ->
  encodable (name c2) = true -> encodable (pattern c2) = true ->
  main_on nd_non_ascii re_beyond c1 c2 c3 c4 out
  = Raises Re_error
      (out ++ banner
           ++ output_of (run_case nd_non_ascii re_beyond c1 [])
           ++ header (name c2) (pattern c2)).
Proof.
  intros H1 H2 Hn Hp. unfold main_on.
  repeat (rewrite print_bind by reflexivity; cbv beta).
  rewrite bind_eq, (@run_case_frame nd_non_ascii re_beyond c1 b1 _ H1). cbv beta zeta.
  rewrite bind_eq. unfold run_case at 1.
  rewrite (@test_pattern_raises nd_non_ascii re_beyond (name c2) (pattern c2) Re_error
             (valid_inputs c2) (invalid_inputs c2) _
             (re_compile_object_rejected re_beyond (pattern c2) H2) Hn Hp).
  unfold banner. f_equal. rewrite <- !app_assoc. reflexivity.
Qed.

End Evaluator_more.
(** * What the shipped patterns accept *)

(** ** Reading a match off the pattern *)

Section Inversion.

Variable nd_non_ascii : codepoint -> bool.
Variable s : str.

Local Abbreviation Matches := (Matches nd_non_ascii s).

Lemma Matches_seq r1 r2 i j :
  Matches (Seq r1 r2) i j <-> exists k, Matches r1 i k /\ Matches r2 k j.
Proof.
  split.
  - intros H. inversion H; subst. eauto.
  - intros [k [H1 H2]]. now apply M_seq with (k := k).
Qed.

Lemma Matches_in negate items i j :
  Matches (In negate items) i j <->
  j = S i /\ exists c, nth_error s i = Some c /\
                       set_mem nd_non_ascii negate items c = true.
Proof.
  split.
  - intros H. inversion H; subst. eauto.
  - intros [-> [c [Hc Hm]]]. now apply M_in with (c := c).
Qed.

Lemma Matches_literal c i j :
  Matches (Parser.literal c) i j <-> j = S i /\ nth_error s i = Some c.
Proof.
  unfold Parser.literal. rewrite Matches_in. unfold set_mem. simpl.
  split.
  - intros [-> [d [Hd Hm]]]. split; [reflexivity|].
    rewrite orb_false_r in Hm. apply N.eqb_eq in Hm. now subst d.
  - intros [-> Hc]. split; [reflexivity|]. exists c. split; [assumption|].
    now rewrite N.eqb_refl.
Qed.

Lemma Matches_beginning i j : Matches At_beginning i j <-> i = 0 /\ j = 0.
Proof.
  split.
  - intros H. inversion H; subst. auto.
  - intros [-> ->]. constructor.
Qed.

Lemma Matches_end i j : Matches At_end i j <-> j = i /\ at_end s i = true.
Proof.
  rewrite at_end_spec. split.
  - intros H. inversion H; subst. auto.
  - intros [-> H]. now constructor.
Qed.

Lemma Matches_subpattern capturing r i j :
  Matches (Subpattern capturing r) i j <-> Matches r i j.
Proof.
  split.
  - intros H. now inversion H; subst.
  - now constructor.
Qed.

(** [r?] *)
Lemma Matches_optional r i j :
  Matches (Max_repeat 0 (Some 1) r) i j <-> j = i \/ Matches r i j.
Proof.
  split.
  - intros H. inversion H; subst; [now left | right].
    simpl in *.
    match goal with
    | H2 : Matches (Max_repeat 0 (Some 0) r) _ _ |- _ =>
        inversion H2; subst; [assumption | congruence]
    end.
  - intros [-> | H]; [constructor|].
    apply M_repeat_more with (k := j); [discriminate | assumption | constructor].
Qed.

(** A repeated character set matches a run of characters of the set, of a
    length inside the bounds. *)
Lemma Matches_repeat_set_run lo hi negate items i j :
  Matches (Max_repeat lo hi (In negate items)) i j ->
  i <= j /\ lo <= j - i /\ (forall h, hi = Some h -> j - i <= h) /\
  chars_in (set_mem nd_non_ascii negate items) s i j.
Proof.
  intros H. remember (Max_repeat lo hi (In negate items)) as r eqn:Er.
  revert lo hi Er.
  induction H as [ | | | | | | | | hi0 r0 i | lo0 hi0 r0 i k j Hhi H1 _ H2 IH2 | ];
    intros lo hi Er; try discriminate; injection Er as E1 E2 E3; subst.
  - repeat split; try lia.
    intros p Hp. lia.
  - apply Matches_in in H1. destruct H1 as [-> [c [Hc Hm]]].
    destruct (IH2 _ _ eq_refl) as [Hle [Hlo [Hh Hchars]]].
    repeat split; try lia.
    + intros h ->. destruct h as [|h]; [congruence|].
      specialize (Hh h eq_refl). lia.
    + intros p Hp. destruct (Nat.eq_dec p i) as [-> | Hne]; [eauto|].
      apply Hchars. lia.
Qed.

Lemma run_Matches_repeat_set negate items (n : nat) :
  forall i lo hi,
    lo <= n -> (forall h, hi = Some h -> n <= h) ->
    chars_in (set_mem nd_non_ascii negate items) s i (i + n) ->
    Matches (Max_repeat lo hi (In negate items)) i (i + n).
Proof.
  induction n as [|n IH]; intros i lo hi Hlo Hh Hchars.
  - replace lo with 0 by lia. rewrite Nat.add_0_r. constructor.
  - apply M_repeat_more with (k := S i).
    + intros ->. specialize (Hh 0 eq_refl). lia.
    + destruct (Hchars i) as [c [Hc Hm]]; [lia|].
      now apply M_in with (c := c).
    + replace (i + S n) with (S i + n) by lia. apply IH.
      * lia.
      * intros h E. destruct hi as [h0|]; [|discriminate].
        injection E as <-. specialize (Hh h0 eq_refl). lia.
      * intros p Hp. apply Hchars. lia.
Qed.

Lemma Matches_repeat_set lo hi negate items i j :
  Matches (Max_repeat lo hi (In negate items)) i j <->
  i <= j /\ lo <= j - i /\ (forall h, hi = Some h -> j - i <= h) /\
  chars_in (set_mem nd_non_ascii negate items) s i j.
Proof.
  split; [apply Matches_repeat_set_run|].
  intros [Hle [Hlo [Hh Hchars]]].
  replace j with (i + (j - i)) by lia.
  apply run_Matches_repeat_set; try assumption.
  now replace (i + (j - i)) with j by lia.
Qed.

End Inversion.

(** ** From positions to strings *)

Lemma at_end_app (body tail : str) :
  at_end (body ++ tail) (List.length body) = true <-> tail = [] \/ tail = [newline].
Proof.
  rewrite at_end_spec, length_app. split.
  - intros [H | [H1 H2]].
    + left. destruct tail; [reflexivity | simpl in H; lia].
    + right. destruct tail as [|c [|d tail]]; simpl in H1; try lia.
      rewrite nth_error_app2, Nat.sub_diag in H2 by lia. simpl in H2. congruence.
  - intros [-> | ->]; simpl; [left; lia | right].
    split; [lia|]. rewrite nth_error_app2, Nat.sub_diag by lia. reflexivity.
Qed.

Lemma at_end_inside (s : str) (n : nat) : at_end s n = true -> n <= List.length s.
Proof. rewrite at_end_spec. lia. Qed.

Lemma chars_in_ext (P Q : codepoint -> bool) (s : str) (i j : nat) :
  (forall c, P c = Q c) -> chars_in P s i j <-> chars_in Q s i j.
Proof.
  intros E. unfold chars_in.
  split; intros H p Hp; destruct (H p Hp) as [c [Hc HP]]; exists c;
    (split; [assumption|]); [rewrite <- E | rewrite E]; assumption.
Qed.

Lemma chars_in_prefix (P : codepoint -> bool) (body tail : str) (i j : nat) :
  j <= List.length body ->
  chars_in P (body ++ tail) i j <-> chars_in P body i j.
Proof.
  intros Hj. unfold chars_in.
  split; intros H p Hp; specialize (H p Hp);
    [rewrite nth_error_app1 in H by lia | rewrite nth_error_app1 by lia];
    assumption.
Qed.

Lemma chars_in_cons (P : codepoint -> bool) (c : codepoint) (l : str) (i j : nat) :
  chars_in P (c :: l) (S i) (S j) <-> chars_in P l i j.
Proof.
  unfold chars_in. split; intros H p Hp.
  - apply (H (S p)). lia.
  - destruct p as [|p]; [lia|]. simpl. apply H. lia.
Qed.

Lemma chars_in_all (P : codepoint -> bool) (body : str) :
  chars_in P body 0 (List.length body) <-> forallb P body = true.
Proof.
  induction body as [|c body IH]; simpl.
  - split; [reflexivity | intros _ p Hp; lia].
  - rewrite andb_true_iff, <- IH. split.
    + intros H. split.
      * destruct (H 0) as [d [Hd HP]]; [lia|]. simpl in Hd. congruence.
      * intros p Hp. apply (H (S p)). lia.
    + intros [Hc H] p Hp. destruct p as [|p]; simpl; [eauto|].
      apply H. lia.
Qed.

Lemma nth_error_after (u v : str) (p : nat) :
  nth_error (u ++ v) (List.length u + p) = nth_error v p.
Proof.
  rewrite nth_error_app2 by lia. f_equal. lia.
Qed.

Lemma nth_error_at_length (u v : str) :
  nth_error (u ++ v) (List.length u) = nth_error v 0.
Proof.
  rewrite <- (nth_error_after u v 0). f_equal. lia.
Qed.

Lemma nth_error_last (body : str) (d : codepoint) :
  body <> [] -> nth_error body (List.length body - 1) = Some (last body d).
Proof.
  intros Hne. destruct (exists_last Hne) as [l [a ->]].
  rewrite last_last, length_app. simpl.
  rewrite nth_error_app2 by lia.
  replace (List.length l + 1 - 1 - List.length l) with 0 by lia. reflexivity.
Qed.

Section Accepted.

Variable nd_non_ascii : codepoint -> bool.

(** A pattern whose matches from the start are the positions [j] at the
    end of the string (or before its final newline) with [Q s j] accepts the
    strings that satisfy [P] up to a final newline, when [Q] at the end of
    [body] says [P body]. *)
Lemma accepted_up_to_final_newline (r : regex)
      (Q : str -> nat -> Prop) (P : str -> Prop) :
  (forall s j, Matches nd_non_ascii s r 0 j <-> Q s j /\ at_end s j = true) ->
  (forall body tail, Q (body ++ tail) (List.length body) <-> P body) ->
  forall s, matched nd_non_ascii r s = true <-> up_to_final_newline P s.
Proof.
  intros Hr HQ s. rewrite matched_spec. unfold matches_from_start, up_to_final_newline.
  split.
  - intros [j [Hj Hm]]. apply Hr in Hm. destruct Hm as [Hq He].
    assert (Hlen : List.length (firstn j s) = j)
      by (rewrite length_firstn; lia).
    pose proof (firstn_skipn j s) as Es.
    remember (firstn j s) as body eqn:Eb. remember (skipn j s) as tail eqn:Et.
    clear Eb Et Hj. subst j s.
    exists body, tail. split; [reflexivity|].
    split; [now apply (at_end_app body tail) | now apply (HQ body tail)].
  - intros [body [tail [-> [Ht HP]]]].
    exists (List.length body). split; [rewrite length_app; lia|].
    apply Hr. split; [now apply HQ | now apply at_end_app].
Qed.

(** Such a pattern accepts a string with a newline appended whenever it
    accepts the string and the string does not already end with one. *)
Lemma appended_newline_accepted (r : regex) (P : str -> Prop) :
  (forall s, matched nd_non_ascii r s = true <-> up_to_final_newline P s) ->
  forall s, matched nd_non_ascii r s = true ->
            (forall s', s <> s' ++ [newline]) ->
            matched nd_non_ascii r (s ++ [newline]) = true.
Proof.
  intros H s Hs Hno. apply H. apply H in Hs.
  destruct Hs as [body [tail [-> [[-> | ->] HP]]]].
  - rewrite app_nil_r. exists body, [newline]. auto.
  - contradiction (Hno body). reflexivity.
Qed.

End Accepted.

(** ** The four patterns *)

Section Shipped_patterns.

Variable nd_non_ascii : codepoint -> bool.

Local Abbreviation digit_set := [Category_digit].
Local Abbreviation alnum_set := [Range 97 122; Range 65 90; Range 48 57].
Local Abbreviation alnum_hyphen_set :=
  [Range 97 122; Range 65 90; Range 48 57; Literal 45].

Lemma set_mem_digit c : set_mem nd_non_ascii false digit_set c = is_decimal nd_non_ascii c.
Proof. unfold set_mem. simpl. now rewrite orb_false_r. Qed.

Lemma set_mem_alnum c : set_mem nd_non_ascii false alnum_set c = is_alnum c.
Proof.
  unfold set_mem, is_alnum. simpl. now rewrite orb_false_r, orb_assoc.
Qed.

Lemma set_mem_alnum_hyphen c :
  set_mem nd_non_ascii false alnum_hyphen_set c = is_alnum_or_hyphen c.
Proof.
  unfold set_mem, is_alnum_or_hyphen, is_alnum, hyphen. simpl.
  now rewrite orb_false_r, !orb_assoc.
Qed.

Lemma is_alnum_or_hyphen_of_alnum c : is_alnum c = true -> is_alnum_or_hyphen c = true.
Proof. unfold is_alnum_or_hyphen. now intros ->. Qed.

Lemma number_span (body tail : str) :
  1 <= List.length body /\
  chars_in (is_decimal nd_non_ascii) (body ++ tail) 0 (List.length body)
  <-> is_number nd_non_ascii body = true.
Proof.
  rewrite chars_in_prefix by lia. rewrite chars_in_all.
  unfold is_number. rewrite andb_true_iff, negb_true_iff, Nat.eqb_neq. split.
  - intros [H1 H2]. split; [lia | assumption].
  - intros [H1 H2]. split; [lia | assumption].
Qed.

Local Abbreviation app_id_regex :=
  (Seq At_beginning (Seq (Max_repeat 1 None (In false digit_set)) At_end)).

Local Abbreviation issue_number_regex :=
  (Seq At_beginning
     (Seq (Max_repeat 0 (Some 1) (Parser.literal (ch "#")))
        (Seq (Max_repeat 1 None (In false digit_set)) At_end))).

(** One or more digits from position [i]. *)
Lemma Matches_digits s i j :
  Matches nd_non_ascii s (Max_repeat 1 None (In false digit_set)) i j <->
  i < j /\ chars_in (is_decimal nd_non_ascii) s i j.
Proof.
  rewrite Matches_repeat_set.
  rewrite (chars_in_ext _ _ s i j set_mem_digit).
  split.
  - intros [H1 [H2 [_ H4]]]. split; [lia | assumption].
  - intros [H1 H2]. repeat split; try lia; try assumption. discriminate.
Qed.

Lemma app_id_accepts s :
  matched nd_non_ascii app_id_regex s = true <->
  up_to_final_newline
    (fun body => is_number nd_non_ascii body = true) s.
Proof.
  revert s.
  apply accepted_up_to_final_newline
    with (Q := fun s j => 1 <= j /\ chars_in (is_decimal nd_non_ascii) s 0 j).
  - intros s j. rewrite Matches_seq. split.
    + intros [k [Hb H]]. apply Matches_beginning in Hb. destruct Hb as [_ ->].
      apply Matches_seq in H. destruct H as [k [Hd He]].
      apply Matches_end in He. destruct He as [-> He].
      apply Matches_digits in Hd. destruct Hd as [Hlt Hch].
      split; [split; [lia | assumption] | assumption].
    + intros [[Hj Hch] He]. exists 0. split; [now apply Matches_beginning|].
      apply Matches_seq. exists j. split.
      * apply Matches_digits. split; [lia | assumption].
      * now apply Matches_end.
  - intros body tail. apply number_span.
Qed.

Lemma issue_number_accepts s :
  matched nd_non_ascii issue_number_regex s = true <->
  up_to_final_newline
    (fun body => is_issue_number nd_non_ascii body = true) s.
Proof.
  revert s.
  apply accepted_up_to_final_newline
    with (Q := fun s j =>
                 (1 <= j /\ chars_in (is_decimal nd_non_ascii) s 0 j) \/
                 (nth_error s 0 = Some (ch "#") /\ 2 <= j /\
                  chars_in (is_decimal nd_non_ascii) s 1 j)).
  - intros s j. rewrite Matches_seq. split.
    + intros [k [Hb H]]. apply Matches_beginning in Hb. destruct Hb as [_ ->].
      apply Matches_seq in H. destruct H as [k [Ho H]].
      apply Matches_seq in H. destruct H as [k' [Hd He]].
      apply Matches_end in He. destruct He as [-> He].
      apply Matches_digits in Hd. destruct Hd as [Hlt Hch].
      split; [|assumption].
      apply Matches_optional in Ho. destruct Ho as [-> | Ho].
      * left. split; [lia | assumption].
      * apply Matches_literal in Ho. destruct Ho as [-> Hc].
        right. repeat split; [assumption | lia | assumption].
    + intros [[[Hj Hch] | [Hc [Hj Hch]]] He].
      * exists 0. split; [now apply Matches_beginning|].
        apply Matches_seq. exists 0. split; [apply Matches_optional; now left|].
        apply Matches_seq. exists j. split.
        -- apply Matches_digits. split; [lia | assumption].
        -- now apply Matches_end.
      * exists 0. split; [now apply Matches_beginning|].
        apply Matches_seq. exists 1. split.
        -- apply Matches_optional. right. now apply Matches_literal.
        -- apply Matches_seq. exists j. split.
           ++ apply Matches_digits. split; [lia | assumption].
           ++ now apply Matches_end.
  - intros body tail. destruct body as [|c rest].
    + simpl. split; [|discriminate].
      intros [[H _] | [_ [H _]]]; lia.
    + unfold is_issue_number. destruct (N.eqb_spec c (ch "#")) as [-> | Hne].
      * rewrite <- (number_span rest tail). split.
        -- intros [[_ Hch] | [_ [Hj Hch]]].
           ++ destruct (Hch 0) as [d [Hd Hdec]]; [simpl; lia|].
              simpl in Hd. injection Hd as <-. discriminate.
           ++ simpl in Hj. split; [lia|].
              now apply chars_in_cons with (c := ch "#").
        -- intros [Hj Hch]. right. simpl. repeat split; [lia|].
           now apply chars_in_cons.
      * rewrite <- (number_span (c :: rest) tail). split.
        -- intros [H | [Hc _]]; [assumption|].
           simpl in Hc. injection Hc as Hc. contradiction (Hne Hc).
        -- intros H. now left.
Qed.

Local Abbreviation optional_rest :=
  (Max_repeat 0 (Some 1)
     (Subpattern true
        (Seq (Max_repeat 0 (Some 37) (In false alnum_hyphen_set))
             (In false alnum_set)))).

Local Abbreviation github_username_regex :=
  (Seq At_beginning (Seq (In false alnum_set) (Seq optional_rest At_end))).

(** The part of the two user-name patterns between [^] and what follows
    the optional group. *)
Lemma Matches_username s k :
  (exists k1, Matches nd_non_ascii s (In false alnum_set) 0 k1 /\
              Matches nd_non_ascii s optional_rest k1 k)
  <-> username_span s k.
Proof.
  unfold username_span. split.
  - intros [k1 [H1 Ho]].
    apply Matches_in in H1. destruct H1 as [-> [c0 [Hc0 Ha0]]].
    rewrite set_mem_alnum in Ha0.
    apply Matches_optional in Ho. destruct Ho as [-> | Ho].
    + repeat split; try lia; [| eauto | eauto].
      intros p Hp. replace p with 0 by lia.
      exists c0. split; [assumption | now apply is_alnum_or_hyphen_of_alnum].
    + apply Matches_subpattern, Matches_seq in Ho. destruct Ho as [m [Hr Hl]].
      apply Matches_in in Hl. destruct Hl as [-> [cm [Hcm Ham]]].
      rewrite set_mem_alnum in Ham.
      apply Matches_repeat_set in Hr. destruct Hr as [Hle [_ [Hh Hch]]].
      specialize (Hh 37 eq_refl).
      repeat split; try lia; [| eauto |].
      * intros p Hp.
        destruct (Nat.eq_dec p 0) as [-> | Hp0];
          [exists c0; split; [assumption | now apply is_alnum_or_hyphen_of_alnum]|].
        destruct (Nat.eq_dec p m) as [-> | Hpm];
          [exists cm; split; [assumption | now apply is_alnum_or_hyphen_of_alnum]|].
        destruct (Hch p) as [c [Hc Hm]]; [lia|].
        exists c. split; [assumption | now rewrite <- set_mem_alnum_hyphen].
      * exists cm. split; [|assumption].
        now replace (S m - 1) with m by lia.
  - intros [Hk [Hch [[c0 [Hc0 Ha0]] [cl [Hcl Hal]]]]].
    exists 1. split.
    + apply Matches_in. split; [reflexivity|].
      exists c0. split; [assumption | now rewrite set_mem_alnum].
    + apply Matches_optional.
      destruct (Nat.eq_dec k 1) as [-> | Hk1]; [now left | right].
      apply Matches_subpattern, Matches_seq. exists (k - 1). split.
      * apply Matches_repeat_set. repeat split; try lia.
        -- intros h E. injection E as <-. lia.
        -- intros p Hp. destruct (Hch p) as [c [Hc Hm]]; [lia|].
           exists c. split; [assumption | now rewrite set_mem_alnum_hyphen].
      * apply Matches_in. split; [lia|].
        exists cl. split; [assumption | now rewrite set_mem_alnum].
Qed.

Lemma username_span_body (body tail : str) :
  username_span (body ++ tail) (List.length body) <-> is_username body = true.
Proof.
  unfold username_span. destruct body as [|a rest].
  - simpl. split; [intros [H _]; lia | discriminate].
  - remember (a :: rest) as body eqn:Eb.
    assert (Hne : body <> []) by (subst body; discriminate).
    assert (Hlen : 1 <= List.length body) by (subst body; simpl; lia).
    assert (Hfirst : nth_error (body ++ tail) 0 = Some a) by (now subst body).
    assert (Hlast : nth_error (body ++ tail) (List.length body - 1)
                    = Some (last body a)).
    { rewrite nth_error_app1 by lia. now apply nth_error_last. }
    assert (Hu : is_username body
                 = (List.length body <=? 39) && forallb is_alnum_or_hyphen body
                   && is_alnum a && is_alnum (last body a))
      by (now subst body).
    rewrite Hu, !andb_true_iff, Nat.leb_le, <- chars_in_all.
    rewrite chars_in_prefix by lia. rewrite Hfirst, Hlast.
    split.
    + intros [[_ H39] [Hch [[c0 [E0 H0]] [cl [El Hl]]]]].
      injection E0 as <-. injection El as <-. auto.
    + intros [[[H39 Hch] H0] Hl]. repeat split; eauto.
Qed.

Lemma github_username_accepts s :
  matched nd_non_ascii github_username_regex s = true <->
  up_to_final_newline
    (fun body => is_username body = true) s.
Proof.
  revert s.
  apply accepted_up_to_final_newline with (Q := username_span).
  - intros s j. rewrite <- Matches_username, Matches_seq. split.
    + intros [k [Hb H]]. apply Matches_beginning in Hb. destruct Hb as [_ ->].
      apply Matches_seq in H. destruct H as [k1 [H1 H]].
      apply Matches_seq in H. destruct H as [k2 [Ho He]].
      apply Matches_end in He. destruct He as [-> He].
      split; [eauto | assumption].
    + intros [[k1 [H1 Ho]] He]. exists 0. split; [now apply Matches_beginning|].
      apply Matches_seq. exists k1. split; [assumption|].
      apply Matches_seq. exists j. split; [assumption | now apply Matches_end].
  - apply username_span_body.
Qed.

Local Abbreviation bot_suffix_then_end :=
  (Seq (Parser.literal (ch "["))
     (Seq (Parser.literal (ch "b"))
        (Seq (Parser.literal (ch "o"))
           (Seq (Parser.literal (ch "t"))
              (Seq (Parser.literal (ch "]")) At_end))))).

Lemma Matches_bot_suffix s m j :
  Matches nd_non_ascii s bot_suffix_then_end m j <->
  j = m + 5 /\ at_end s j = true /\
  nth_error s m = Some (ch "[") /\ nth_error s (m + 1) = Some (ch "b") /\
  nth_error s (m + 2) = Some (ch "o") /\ nth_error s (m + 3) = Some (ch "t") /\
  nth_error s (m + 4) = Some (ch "]").
Proof.
  split.
  - intros H.
    apply Matches_seq in H. destruct H as [k1 [H1 H]].
    apply Matches_literal in H1. destruct H1 as [-> H1].
    apply Matches_seq in H. destruct H as [k2 [H2 H]].
    apply Matches_literal in H2. destruct H2 as [-> H2].
    apply Matches_seq in H. destruct H as [k3 [H3 H]].
    apply Matches_literal in H3. destruct H3 as [-> H3].
    apply Matches_seq in H. destruct H as [k4 [H4 H]].
    apply Matches_literal in H4. destruct H4 as [-> H4].
    apply Matches_seq in H. destruct H as [k5 [H5 He]].
    apply Matches_literal in H5. destruct H5 as [-> H5].
    apply Matches_end in He. destruct He as [-> He].
    replace (m + 5) with (S (S (S (S (S m))))) by lia.
    replace (m + 1) with (S m) by lia.
    replace (m + 2) with (S (S m)) by lia.
    replace (m + 3) with (S (S (S m))) by lia.
    replace (m + 4) with (S (S (S (S m)))) by lia.
    repeat split; assumption.
  - intros [-> [He [H1 [H2 [H3 [H4 H5]]]]]].
    apply Matches_seq. exists (m + 1). split;
      [apply Matches_literal; split; [lia | assumption]|].
    apply Matches_seq. exists (m + 2). split;
      [apply Matches_literal; split; [lia | assumption]|].
    apply Matches_seq. exists (m + 3). split;
      [apply Matches_literal; split; [lia | assumption]|].
    apply Matches_seq. exists (m + 4). split;
      [apply Matches_literal; split; [lia | assumption]|].
    apply Matches_seq. exists (m + 5). split;
      [apply Matches_literal; split; [lia | assumption]|].
    now apply Matches_end.
Qed.

Local Abbreviation bot_username_regex :=
  (Seq At_beginning
     (Seq (In false alnum_set) (Seq optional_rest bot_suffix_then_end))).

Lemma bot_span_body (body tail : str) :
  (exists m, List.length body = m + 5 /\ username_span (body ++ tail) m /\
             nth_error (body ++ tail) m = Some (ch "[") /\
             nth_error (body ++ tail) (m + 1) = Some (ch "b") /\
             nth_error (body ++ tail) (m + 2) = Some (ch "o") /\
             nth_error (body ++ tail) (m + 3) = Some (ch "t") /\
             nth_error (body ++ tail) (m + 4) = Some (ch "]"))
  <-> exists u, body = u ++ py "[bot]" /\ is_username u = true.
Proof.
  split.
  - intros [m [Hlen [Hu [H0 [H1 [H2 [H3 H4]]]]]]].
    exists (firstn m body).
    assert (Hm : List.length (firstn m body) = m) by (rewrite length_firstn; lia).
    pose proof (firstn_skipn m body) as Eb.
    assert (Hr : List.length (skipn m body) = 5) by (rewrite length_skipn; lia).
    rewrite nth_error_app1 in H0, H1, H2, H3, H4 by lia.
    rewrite <- (Nat.add_0_r m) in H0.
    rewrite <- nth_error_skipn in H0, H1, H2, H3, H4.
    remember (firstn m body) as u eqn:Eu. remember (skipn m body) as rest eqn:Er.
    clear Eu Er.
    destruct rest as [|c0 [|c1 [|c2 [|c3 [|c4 [|c5 rest]]]]]]; try discriminate.
    simpl in H0, H1, H2, H3, H4.
    injection H0 as ->. injection H1 as ->. injection H2 as ->.
    injection H3 as ->. injection H4 as ->.
    split; [now symmetry|].
    subst body m. rewrite <- app_assoc in Hu. now apply username_span_body in Hu.
  - intros [u [-> Hu]]. exists (List.length u).
    split; [rewrite length_app; reflexivity|].
    rewrite <- app_assoc.
    split; [now apply username_span_body|].
    rewrite !nth_error_after, nth_error_at_length.
    repeat split; reflexivity.
Qed.

Lemma bot_username_accepts s :
  matched nd_non_ascii bot_username_regex s = true <->
  up_to_final_newline
    (fun body => exists u, body = u ++ py "[bot]" /\ is_username u = true) s.
Proof.
  revert s.
  apply accepted_up_to_final_newline
    with (Q := fun s j =>
                 exists m, j = m + 5 /\ username_span s m /\
                           nth_error s m = Some (ch "[") /\
                           nth_error s (m + 1) = Some (ch "b") /\
                           nth_error s (m + 2) = Some (ch "o") /\
                           nth_error s (m + 3) = Some (ch "t") /\
                           nth_error s (m + 4) = Some (ch "]")).
  - intros s j. rewrite Matches_seq. split.
    + intros [k [Hb H]]. apply Matches_beginning in Hb. destruct Hb as [_ ->].
      apply Matches_seq in H. destruct H as [k1 [H1 H]].
      apply Matches_seq in H. destruct H as [m [Ho Hs]].
      apply Matches_bot_suffix in Hs. destruct Hs as [-> [He Hs]].
      split; [|assumption]. exists m. split; [reflexivity|].
      split; [|assumption]. apply Matches_username. eauto.
    + intros [[m [-> [Hu Hs]]] He].
      apply Matches_username in Hu. destruct Hu as [k1 [H1 Ho]].
      exists 0. split; [now apply Matches_beginning|].
      apply Matches_seq. exists k1. split; [assumption|].
      apply Matches_seq. exists m. split; [assumption|].
      apply Matches_bot_suffix. auto.
  - intros body tail. apply bot_span_body.
Qed.

(** X7: the App ID pattern accepts exactly the strings of one or more
    decimal digits, alone or followed by one final newline. *)
Theorem app_id_language :
  exists r,
    re_compile (pattern app_id) = Some r /\
    forall s, matched nd_non_ascii r s = true <->
              up_to_final_newline (fun body => is_number nd_non_ascii body = true) s.
Proof.
  exists app_id_regex. split; [reflexivity | apply app_id_accepts].
Qed.

(** X8: the Issue Number pattern accepts exactly the strings of one or
    more decimal digits, with or without a [#] in front, alone or followed
    by one final newline. *)
Theorem issue_number_language :
  exists r,
    re_compile (pattern issue_number) = Some r /\
    forall s, matched nd_non_ascii r s = true <->
              up_to_final_newline
                (fun body => is_issue_number nd_non_ascii body = true) s.
Proof.
  exists issue_number_regex. split; [reflexivity | apply issue_number_accepts].
Qed.

(** X9: the GitHub Username pattern accepts exactly the strings of 1 to
    39 ASCII letters, digits and hyphens that neither begin nor end with a
    hyphen, alone or followed by one final newline. *)
Theorem github_username_language :
  exists r,
    re_compile (pattern github_username) = Some r /\
    forall s, matched nd_non_ascii r s = true <->
              up_to_final_newline (fun body => is_username body = true) s.
Proof.
  exists github_username_regex. split; [reflexivity | apply github_username_accepts].
Qed.

(** X10: the Bot Username pattern accepts exactly the strings made of a
    user name (1 to 39 letters, digits and hyphens, no hyphen first or
    last) followed by the lower-case marker [[bot]], alone or followed by
    one final newline. *)
Theorem bot_username_language :
  exists r,
    re_compile (pattern bot_username) = Some r /\
    forall s, matched nd_non_ascii r s = true <->
              up_to_final_newline
                (fun body => exists u, body = u ++ py "[bot]" /\ is_username u = true) s.
Proof.
  exists bot_username_regex. split; [reflexivity | apply bot_username_accepts].
Qed.

(** X11: each of the four shipped patterns, although anchored with [$],
    accepts every string it accepts also with one newline appended, unless
    the string already ends with a newline. *)
Theorem shipped_patterns_accept_appended_newline :
  Forall (fun c =>
            exists r,
              re_compile (pattern c) = Some r /\
              forall s, matched nd_non_ascii r s = true ->
                        (forall s', s <> s' ++ [newline]) ->
                        matched nd_non_ascii r (s ++ [newline]) = true)
         shipped_cases.
Proof.
  unfold shipped_cases. repeat apply Forall_cons; [| | | | apply Forall_nil].
  - exists issue_number_regex. split; [reflexivity|].
    exact (@appended_newline_accepted nd_non_ascii _ _ issue_number_accepts).
  - exists github_username_regex. split; [reflexivity|].
    exact (@appended_newline_accepted nd_non_ascii _ _ github_username_accepts).
  - exists bot_username_regex. split; [reflexivity|].
    exact (@appended_newline_accepted nd_non_ascii _ _ bot_username_accepts).
  - exists app_id_regex. split; [reflexivity|].
    exact (@appended_newline_accepted nd_non_ascii _ _ app_id_accepts).
Qed.

(** X12: every string the App ID pattern accepts is accepted by the
    Issue Number pattern too. *)
Theorem app_id_is_issue_number :
  exists r_app r_issue,
    re_compile (pattern app_id) = Some r_app /\
    re_compile (pattern issue_number) = Some r_issue /\
    forall s, matched nd_non_ascii r_app s = true ->
              matched nd_non_ascii r_issue s = true.
Proof.
  exists app_id_regex, issue_number_regex.
  split; [reflexivity|]. split; [reflexivity|].
  intros s Hs. apply issue_number_accepts. apply app_id_accepts in Hs.
  destruct Hs as [body [tail [-> [Ht Hn]]]]. exists body, tail.
  split; [reflexivity|]. split; [assumption|].
  unfold is_issue_number. destruct body as [|c rest]; [discriminate|].
  destruct (N.eqb_spec c (ch "#")) as [-> | _]; [|assumption].
  unfold is_number in Hn. simpl in Hn. discriminate.
Qed.

(** X13: no string is accepted both by the GitHub Username pattern and by
    the Bot Username pattern. *)
Theorem username_and_bot_username_disjoint :
  exists r_user r_bot,
    re_compile (pattern github_username) = Some r_user /\
    re_compile (pattern bot_username) = Some r_bot /\
    forall s, ~ (matched nd_non_ascii r_user s = true /\
                 matched nd_non_ascii r_bot s = true).
Proof.
  exists github_username_regex, bot_username_regex.
  split; [reflexivity|]. split; [reflexivity|].
  intros s [Hu Hb].
  apply github_username_accepts in Hu. apply bot_username_accepts in Hb.
  destruct Hu as [body [tail [Es [Ht Hu]]]].
  destruct Hb as [body' [tail' [Es' [Ht' [u [-> Hb]]]]]].
  assert (Hc : nth_error s (List.length u + 4) = Some (ch "]")).
  { rewrite Es', <- app_assoc, nth_error_after. reflexivity. }
  assert (Hlen : List.length s = List.length u + 5 + List.length tail').
  { rewrite Es', !length_app. reflexivity. }
  assert (Hlen' : List.length s = List.length body + List.length tail).
  { rewrite Es, length_app. reflexivity. }
  destruct (Nat.lt_ge_cases (List.length u + 4) (List.length body)) as [Hlt | Hge].
  - destruct body as [|a rest]; [discriminate|].
    unfold is_username in Hu. rewrite !andb_true_iff in Hu.
    destruct Hu as [[[_ Hall] _] _].
    apply chars_in_all in Hall.
    destruct (Hall (List.length u + 4)) as [c [Hc' Hm]]; [lia|].
    rewrite Es, nth_error_app1 in Hc by lia.
    rewrite Hc in Hc'. injection Hc' as <-. discriminate.
  - assert (Et : tail = [newline] /\ List.length body = List.length u + 4).
    { destruct Ht as [-> | ->], Ht' as [-> | ->]; simpl in *; try lia.
      split; [reflexivity | lia]. }
    destruct Et as [-> Eb].
    rewrite Es, <- Eb, nth_error_at_length in Hc. discriminate.
Qed.

End Shipped_patterns.

(** ** The size of a report *)

Lemma lines_app (a b : str) : lines (a ++ b) = lines a + lines b.
Proof. unfold lines. now rewrite filter_app, length_app. Qed.

Section Report_size.

Variable nd_non_ascii : codepoint -> bool.
Variable re_beyond : str -> exn + (str -> option Match).

Lemma lines_valid_line p s :
  lines s = 0 -> lines (valid_line_of nd_non_ascii p s) = 1.
Proof.
  intros H. unfold valid_line_of.
  destruct (hit nd_non_ascii p s); rewrite !lines_app, H; reflexivity.
Qed.

Lemma lines_invalid_line p s :
  lines s = 0 -> lines (invalid_line_of nd_non_ascii p s) = 1.
Proof.
  intros H. unfold invalid_line_of.
  destruct (negb (hit nd_non_ascii p s)); rewrite !lines_app, H; reflexivity.
Qed.

Lemma lines_of_lines (line : str -> str) (l : list str) :
  (forall s, lines s = 0 -> lines (line s) = 1) ->
  Forall (fun s => lines s = 0) l ->
  lines (flat_map line l) = List.length l.
Proof.
  intros Hline. induction 1 as [|s l Hs _ IH]; simpl; [reflexivity|].
  rewrite lines_app, IH, (Hline s Hs). reflexivity.
Qed.

(** A call that returns has compiled its pattern and printed all its
    strings. *)
Lemma returned_call name pattern valid invalid out b :
  value_of (test_pattern nd_non_ascii re_beyond name pattern valid invalid out)
  = Some b ->
  exists p,
    test_pattern nd_non_ascii re_beyond name pattern valid invalid out
    = Returns (forallb (hit nd_non_ascii p) valid
               && forallb (fun s => negb (hit nd_non_ascii p s)) invalid)
              (out ++ report_of nd_non_ascii name pattern p valid invalid).
Proof.
  rewrite test_pattern_value. unfold result_of.
  destruct (encodable name) eqn:Hn; [|discriminate].
  destruct (encodable pattern) eqn:Hp; [|discriminate]. simpl.
  destruct (re_compile_object re_beyond pattern) as [e | p] eqn:Hc; [discriminate|].
  destruct (forallb encodable valid) eqn:Hv; [|discriminate].
  destruct (forallb encodable invalid) eqn:Hi; [|discriminate].
  intros _. exists p. now apply test_pattern_returns_object.
Qed.

(** X14: when neither the name, the pattern nor any example holds a
    newline, a call of the evaluator that returns has printed exactly nine
    lines of header and headings and one line for each example. *)
Theorem report_has_one_line_per_example name pattern valid invalid out b :
  lines name = 0 -> lines pattern = 0 ->
  Forall (fun s => lines s = 0) valid ->
  Forall (fun s => lines s = 0) invalid ->
  value_of (test_pattern nd_non_ascii re_beyond name pattern valid invalid out)
  = Some b ->
  lines (output_of (test_pattern nd_non_ascii re_beyond name pattern valid invalid out))
  = lines out + 9 + List.length valid + List.length invalid.
Proof.
  intros Hn Hp Hv Hi Hb.
  destruct (returned_call _ _ _ _ _ Hb) as [p ->].
  simpl output_of. unfold report_of, header.
  rewrite !lines_app, Hn, Hp.
  rewrite (lines_of_lines (valid_line_of nd_non_ascii p) (@lines_valid_line p) Hv).
  rewrite (lines_of_lines (invalid_line_of nd_non_ascii p) (@lines_invalid_line p) Hi).
  change (lines [newline]) with 1. change (lines rule) with 0.
  change (lines (py "Testing: ")) with 0. change (lines (py "Pattern: ")) with 0.
  change (lines valid_heading) with 2. change (lines invalid_heading) with 2.
  lia.
Qed.

End Report_size.

(** ** Instances *)

Lemma rejected_pattern_raises_after_header_witness :
  re_parse (py "(") = Parser.Rejected /\
  encodable (py "Unclosed group") = true /\ encodable (py "(") = true /\
  test_pattern ascii_digits_only fragment_only (py "Unclosed group") (py "(")
    [py "a"] [py "b"] []
  = Raises Re_error ([] ++ header (py "Unclosed group") (py "(")) /\
  test_pattern ascii_digits_only fragment_only (py "Unclosed group") (py "(")
    [py "a"] [py "b"] []
  = test_pattern ascii_digits_only fragment_only (py "Unclosed group") (py "(") [] [] [].
Proof.
  do 3 (split; [reflexivity|]).
  apply (@rejected_pattern_raises_after_header ascii_digits_only fragment_only
           (py "Unclosed group") (py "(") [py "a"] [py "b"] []); reflexivity.
Defined.

Lemma passing_case_stays_passing_witness :
  incl [py "0"; py "1"; py "0"] (valid_inputs app_id) /\
  incl [py "abc"] (invalid_inputs app_id) /\
  value_of (test_pattern ascii_digits_only fragment_only (name app_id) (pattern app_id)
              (valid_inputs app_id) (invalid_inputs app_id) []) = Some true /\
  value_of (test_pattern ascii_digits_only fragment_only (name app_id) (pattern app_id)
              [py "0"; py "1"; py "0"] [py "abc"] []) = Some true.
Proof.
  assert (H1 : incl [py "0"; py "1"; py "0"] (valid_inputs app_id)).
  { intros s [<- | [<- | [<- | []]]]; simpl; auto. }
  assert (H2 : incl [py "abc"] (invalid_inputs app_id)).
  { intros s [<- | []]; simpl; auto. }
  assert (H3 : value_of (test_pattern ascii_digits_only fragment_only (name app_id)
                           (pattern app_id)
                           (valid_inputs app_id) (invalid_inputs app_id) [])
               = Some true) by (vm_compute; reflexivity).
  repeat (split; [assumption|]).
  exact (@passing_case_stays_passing ascii_digits_only fragment_only (name app_id)
           (pattern app_id) (valid_inputs app_id) (invalid_inputs app_id)
           [py "0"; py "1"; py "0"] [py "abc"] [] [] H1 H2 H3).
Defined.

Lemma shared_example_fails_witness :
  List.In (py "42") [py "7"; py "42"] /\
  List.In (py "42") [py "42"; py "x"] /\
  value_of (test_pattern ascii_digits_only fragment_only (name app_id) (pattern app_id)
              [py "7"; py "42"] [py "42"; py "x"] []) <> Some true.
Proof.
  assert (H1 : List.In (py "42") [py "7"; py "42"]) by (simpl; auto).
  assert (H2 : List.In (py "42") [py "42"; py "x"]) by (simpl; auto).
  repeat (split; [assumption|]).
  exact (@shared_example_fails ascii_digits_only fragment_only (name app_id)
           (pattern app_id) [py "7"; py "42"] [py "42"; py "x"] (py "42") [] H1 H2).
Defined.

Lemma rejected_pattern_stops_the_run_witness :
  value_of (run_case ascii_digits_only fragment_only app_id []) = Some true /\
  re_parse (pattern unclosed_group_case) = Parser.Rejected /\
  encodable (name unclosed_group_case) = true /\
  encodable (pattern unclosed_group_case) = true /\
  main_on ascii_digits_only fragment_only app_id unclosed_group_case
    issue_number bot_username []
  = Raises Re_error
      ([] ++ banner
          ++ output_of (run_case ascii_digits_only fragment_only app_id [])
          ++ header (name unclosed_group_case) (pattern unclosed_group_case)).
Proof.
  assert (H1 : value_of (run_case ascii_digits_only fragment_only app_id [])
               = Some true) by (vm_compute; reflexivity).
  split; [exact H1|]. do 3 (split; [reflexivity|]).
  apply (@rejected_pattern_stops_the_run ascii_digits_only fragment_only
           app_id unclosed_group_case issue_number bot_username true []);
    [exact H1 | reflexivity | reflexivity | reflexivity].
Defined.

Lemma report_has_one_line_per_example_witness :
  lines (name app_id) = 0 /\ lines (pattern app_id) = 0 /\
  Forall (fun s => lines s = 0) (valid_inputs app_id) /\
  Forall (fun s => lines s = 0) (invalid_inputs app_id) /\
  value_of (test_pattern ascii_digits_only fragment_only (name app_id) (pattern app_id)
              (valid_inputs app_id) (invalid_inputs app_id) []) = Some true /\
  lines (output_of (test_pattern ascii_digits_only fragment_only (name app_id)
                      (pattern app_id)
                      (valid_inputs app_id) (invalid_inputs app_id) []))
  = lines [] + 9 + List.length (valid_inputs app_id)
    + List.length (invalid_inputs app_id).
Proof.
  assert (Hv : Forall (fun s => lines s = 0) (valid_inputs app_id))
    by (repeat constructor).
  assert (Hi : Forall (fun s => lines s = 0) (invalid_inputs app_id))
    by (repeat constructor).
  assert (Hb : value_of (test_pattern ascii_digits_only fragment_only (name app_id)
                           (pattern app_id)
                           (valid_inputs app_id) (invalid_inputs app_id) [])
               = Some true) by (vm_compute; reflexivity).
  split; [reflexivity|]. split; [reflexivity|].
  split; [exact Hv|]. split; [exact Hi|]. split; [exact Hb|].
  apply (@report_has_one_line_per_example ascii_digits_only fragment_only
           (name app_id) (pattern app_id) (valid_inputs app_id)
           (invalid_inputs app_id) [] true);
    [reflexivity | reflexivity | exact Hv | exact Hi | exact Hb].
Defined.
